(** * BiggerTask: capture, replay and hotkey logic of the macro recorder

    A shallow embedding of the C++ sources (BiggerTask.cpp and its later
    revision with hotkey support).  The X server, the clock and the Qt JSON
    containers are the environment: what they answer is an input of the
    model, what the program sends to them is an output. *)

From Stdlib Require Import ZArith Lia Bool SpecFloat QArith DecimalString.
From stdpp Require Import base gmap sets list strings sorting.

Set Warnings "-clear-no-such-hyp".

(** ** Machine integers

    [int], [unsigned int] and [std::int64_t] values are carried as [Z]; the
    conversions and the arithmetic on them reduce modulo the width. *)
Module Int.

Definition wrap_signed (bits z : Z) : Z :=
  ((z + 2 ^ (bits - 1)) mod 2 ^ bits - 2 ^ (bits - 1))%Z.

Definition to_int (z : Z) : Z := wrap_signed 32 z.
Definition to_int64 (z : Z) : Z := wrap_signed 64 z.
Definition to_uint (z : Z) : Z := (z mod 2 ^ 32)%Z.

Definition INT_MAX : Z := 2147483647.
Definition INT64_MIN : Z := (- 2 ^ 63)%Z.

Definition is_int (z : Z) : bool := ((- 2 ^ 31 <=? z) && (z <? 2 ^ 31))%Z.
Definition is_int64 (z : Z) : bool := ((- 2 ^ 63 <=? z) && (z <? 2 ^ 63))%Z.
Definition is_uint (z : Z) : bool := ((0 <=? z) && (z <? 2 ^ 32))%Z.

Definition add (a b : Z) : Z := to_int (a + b).
Definition sub (a b : Z) : Z := to_int (a - b).
Definition sub64 (a b : Z) : Z := to_int64 (a - b).
Definition add64 (a b : Z) : Z := to_int64 (a + b).

End Int.

(** ** Event and monitor models *)

Inductive EventType := MouseMove | MouseButton | Key.

Record Event := {
  ev_type : EventType;
  ev_ms_since_start : Z;
  ev_x : Z;
  ev_y : Z;
  ev_button : Z;
  ev_pressed : bool;
  ev_keycode : Z;
  ev_monitor : string;
  ev_relx : Z;
  ev_rely : Z
}.

(** [Event e;] with the struct's default member initialisers; the mouse and
    key cases of the recorder overwrite [type] at once, [Event e{}] of the
    loader leaves it at the first enumerator. *)
Definition Event_default : Event :=
  {| ev_type := MouseMove; ev_ms_since_start := 0; ev_x := 0; ev_y := 0;
     ev_button := 0; ev_pressed := false; ev_keycode := 0;
     ev_monitor := ""; ev_relx := 0; ev_rely := 0 |}.

Record MonitorInfo := {
  mi_name : string;
  mi_x : Z;
  mi_y : Z;
  mi_width : Z;
  mi_height : Z
}.

#[global] Instance EventType_eq_dec : EqDecision EventType.
Proof. solve_decision. Defined.

#[global] Instance Event_eq_dec : EqDecision Event.
Proof. solve_decision. Defined.

#[global] Instance MonitorInfo_eq_dec : EqDecision MonitorInfo.
Proof. solve_decision. Defined.

(** ** The display layout as XRandR reports it

    [XRRGetScreenResourcesCurrent] may return no resources, [XRRGetOutputInfo]
    may fail for one output, and an output has a CRTC only when it is driven
    ([output->crtc] non-zero and [XRRGetCrtcInfo] succeeding). *)

Record CrtcInfo := {
  crtc_x : Z;
  crtc_y : Z;
  crtc_width : Z;
  crtc_height : Z
}.

Record OutputInfo := {
  out_name : string;
  out_connected : bool;
  out_crtc : option CrtcInfo
}.

Definition Layout : Type := option (list (option OutputInfo)).

Module Monitor.

Definition no_monitor : MonitorInfo :=
  {| mi_name := ""; mi_x := 0; mi_y := 0; mi_width := 0; mi_height := 0 |}.

Definition monitor_of (o : OutputInfo) (c : CrtcInfo) : MonitorInfo :=
  {| mi_name := out_name o; mi_x := crtc_x c; mi_y := crtc_y c;
     mi_width := Int.to_int (crtc_width c);
     mi_height := Int.to_int (crtc_height c) |}.

(** The loop over [res->outputs] shared by both helpers: the first connected
    output with a CRTC that passes [hit] wins, [break] ends the search. *)
Fixpoint first_output (hit : OutputInfo -> CrtcInfo -> bool)
    (outs : list (option OutputInfo)) : MonitorInfo :=
  match outs with
  | [] => no_monitor
  | None :: rest => first_output hit rest
  | Some o :: rest =>
      if out_connected o then
        match out_crtc o with
        | Some c => if hit o c then monitor_of o c else first_output hit rest
        | None => first_output hit rest
        end
      else first_output hit rest
  end.

Definition contains_point (px py : Z) (_ : OutputInfo) (c : CrtcInfo) : bool :=
  let w := Int.to_int (crtc_width c) in
  let h := Int.to_int (crtc_height c) in
  ((crtc_x c <=? px) && (px <? Int.add (crtc_x c) w) &&
   (crtc_y c <=? py) && (py <? Int.add (crtc_y c) h))%Z.

Definition findMonitorForPoint (dpy : Layout) (px py : Z) : MonitorInfo :=
  match dpy with
  | None => no_monitor
  | Some outs => first_output (contains_point px py) outs
  end.

Definition has_name (name : string) (o : OutputInfo) (_ : CrtcInfo) : bool :=
  bool_decide (name = out_name o).

Definition findMonitorByName (dpy : Layout) (name : string) : MonitorInfo :=
  match dpy with
  | None => no_monitor
  | Some outs => first_output (has_name name) outs
  end.

End Monitor.

(** ** Recorder *)
Module Recorder.

Inductive RawType :=
  | XI_RawMotion
  | XI_RawButtonPress
  | XI_RawButtonRelease
  | XI_RawKeyPress
  | XI_RawKeyRelease
  | XI_Other.

(** What the environment answers while one notification is handled:
    [now_ms()], [XQueryPointer] and the XRandR layout. *)
Record Observed := {
  obs_now : Z;
  obs_px : Z;
  obs_py : Z;
  obs_layout : Layout
}.

Record RawEvent := {
  evtype : RawType;
  detail : Z;
  seen : Observed
}.

Record State := {
  events : list Event;
  last_x : Z;
  last_y : Z;
  downButtons : gset Z
}.

Definition initial : State :=
  {| events := []; last_x := -1; last_y := -1; downButtons := ∅ |}.

Definition push_back (e : Event) (st : State) : State :=
  {| events := events st ++ [e]; last_x := last_x st; last_y := last_y st;
     downButtons := downButtons st |}.

Definition mouse_event (ty : EventType) (t : Z) (o : Observed)
    (btn : Z) (isPress : bool) : Event :=
  let mi := Monitor.findMonitorForPoint (obs_layout o) (obs_px o) (obs_py o) in
  {| ev_type := ty; ev_ms_since_start := t;
     ev_x := obs_px o; ev_y := obs_py o;
     ev_button := btn; ev_pressed := isPress; ev_keycode := 0;
     ev_monitor := mi_name mi;
     ev_relx := Int.sub (obs_px o) (mi_x mi);
     ev_rely := Int.sub (obs_py o) (mi_y mi) |}.

Definition key_event (t : Z) (code : Z) (isPress : bool) : Event :=
  {| ev_type := Key; ev_ms_since_start := t; ev_x := 0; ev_y := 0;
     ev_button := 0; ev_pressed := isPress; ev_keycode := Int.to_uint code;
     ev_monitor := ""; ev_relx := 0; ev_rely := 0 |}.

(** One turn of the [while (running)] loop that found a notification. *)
Definition handle (start : Z) (st : State) (ev : RawEvent) : State :=
  let t := Int.sub64 (obs_now (seen ev)) start in
  match evtype ev with
  | XI_RawMotion =>
      let px := obs_px (seen ev) in
      let py := obs_py (seen ev) in
      if negb (px =? last_x st)%Z || negb (py =? last_y st)%Z then
        {| events := events st ++ [mouse_event MouseMove t (seen ev) 0 false];
           last_x := px; last_y := py; downButtons := downButtons st |}
      else st
  | XI_RawButtonPress =>
      push_back (mouse_event MouseButton t (seen ev) (detail ev) true)
        {| events := events st; last_x := last_x st; last_y := last_y st;
           downButtons := {[ detail ev ]} ∪ downButtons st |}
  | XI_RawButtonRelease =>
      push_back (mouse_event MouseButton t (seen ev) (detail ev) false)
        {| events := events st; last_x := last_x st; last_y := last_y st;
           downButtons := downButtons st ∖ {[ detail ev ]} |}
  | XI_RawKeyPress => push_back (key_event t (detail ev) true) st
  | XI_RawKeyRelease => push_back (key_event t (detail ev) false) st
  | XI_Other => st
  end.

(** The releases synthesised after the loop.  [order] is the iteration order
    of the [std::unordered_set], which the language leaves open. *)
Definition synthesized (order : gset Z -> list Z) (start : Z)
    (held : gset Z) (stop : Observed) : list Event :=
  let t := Int.sub64 (obs_now stop) start in
  map (fun b => mouse_event MouseButton t stop b false) (order held).

Definition finish (order : gset Z -> list Z) (start : Z)
    (st : State) (stop : Observed) : list Event :=
  events st ++ synthesized order start (downButtons st) stop.

Inductive Signal :=
  | status (s : string)
  | finishedRecording (count : nat).

Inductive Backend := DisplayFailed | NoXInput | XInputTooOld | BackendReady.

(** [RecorderThread::run]: [raw] are the notifications taken from the queue
    while [running] held, [stop] is what the environment answers once the
    loop has ended. *)
Definition run (backend : Backend) (order : gset Z -> list Z) (start : Z)
    (raw : list RawEvent) (stop : Observed) : list Signal * list Event :=
  match backend with
  | DisplayFailed => ([status "Failed to open X display"], [])
  | NoXInput => ([status "XInput2 not available"], [])
  | XInputTooOld => ([status "XInput2 < 2.0"], [])
  | BackendReady =>
      let log := finish order start (fold_left (handle start) raw initial) stop in
      ([status "Recording..."; status "Stopped."; finishedRecording (length log)],
       log)
  end.

(** The press flags of the button events of button [b], in log order. *)
Definition button_flags (b : Z) (log : list Event) : list bool :=
  map ev_pressed
    (filter (fun e => ev_type e = MouseButton /\ ev_button e = b) log).

(** Reading the flags of one button from the left: [Some h] while presses
    and releases have alternated, starting with a press, [h] telling whether
    the button is now down; [None] once they have not. *)
Definition flag_step (held : option bool) (flag : bool) : option bool :=
  match held with
  | Some h => if Bool.eqb h flag then None else Some flag
  | None => None
  end.

Definition pairing (flags : list bool) : option bool :=
  fold_left flag_step flags (Some false).

(** Every button that has events in the log has them as presses and
    releases in turn, a positive number of pairs. *)
Definition pairs_up (log : list Event) : Prop :=
  forall b,
    (exists e, e ∈ log /\ ev_type e = MouseButton /\ ev_button e = b) ->
    exists k, (0 < k)%nat
              /\ button_flags b log = concat (replicate k [true; false]).

(** The flags of each button agree with the set of buttons held. *)
Definition tracked (st : State) : Prop :=
  forall b, pairing (button_flags b (events st))
            = Some (bool_decide (b ∈ downButtons st)).

(** Take one occurrence of [b] out of [pending], if there is one. *)
Fixpoint take_one (b : Z) (pending : list Z) : option (list Z) :=
  match pending with
  | [] => None
  | p :: rest =>
      if bool_decide (p = b) then Some rest
      else option_map (cons p) (take_one b rest)
  end.

(** Every release notification has an earlier press of the same button
    that no release in between has taken: [pending] are the presses still
    open, with repetitions. *)
Fixpoint releases_matched (pending : list Z) (raw : list RawEvent) : bool :=
  match raw with
  | [] => true
  | ev :: rest =>
      match evtype ev with
      | XI_RawButtonPress => releases_matched (detail ev :: pending) rest
      | XI_RawButtonRelease =>
          match take_one (detail ev) pending with
          | Some pending' => releases_matched pending' rest
          | None => false
          end
      | _ => releases_matched pending rest
      end
  end.

(** The presses and releases of each button alternate: a press comes for a
    button that is up, a release for a button that is down. *)
Fixpoint alternating (held : gset Z) (raw : list RawEvent) : bool :=
  match raw with
  | [] => true
  | ev :: rest =>
      match evtype ev with
      | XI_RawButtonPress =>
          bool_decide (detail ev ∉ held)
          && alternating ({[ detail ev ]} ∪ held) rest
      | XI_RawButtonRelease =>
          bool_decide (detail ev ∈ held)
          && alternating (held ∖ {[ detail ev ]}) rest
      | _ => alternating held rest
      end
  end.

End Recorder.

(** ** Doubles

    IEEE 754 binary64 values, carried as [spec_float] with the operations of
    the Standard Library's specification of floating-point arithmetic. *)
Module Double.

Definition prec : Z := 53.
Definition emax : Z := 1024.

(** [(double)n] for an integer [n]: round to nearest, ties to even. *)
Definition of_Z (n : Z) : spec_float := binary_normalize prec emax n 0 false.

Definition div (a b : spec_float) : spec_float := SFdiv prec emax a b.

(** The integer part of a finite double, rounded toward zero. *)
Definition trunc (d : spec_float) : option Z :=
  match d with
  | S754_zero _ => Some 0%Z
  | S754_finite s m e =>
      let a := Z.shiftl (Z.pos m) e in
      Some (if s then (- a)%Z else a)
  | S754_infinity _ | S754_nan => None
  end.

(** A finite double without fractional part. *)
Definition is_integral (d : spec_float) : bool :=
  match d with
  | S754_zero _ => true
  | S754_finite _ m e => (Z.shiftl (Z.shiftl (Z.pos m) e) (- e) =? Z.pos m)%Z
  | S754_infinity _ | S754_nan => false
  end.

(** [(std::int64_t)d].  The language leaves the conversion of a NaN, an
    infinity or a value outside the range open; the x86-64 conversion
    instruction answers [INT64_MIN] there, which is what is taken here. *)
Definition to_int64 (d : spec_float) : Z :=
  match trunc d with
  | Some z => if Int.is_int64 z then z else Int.INT64_MIN
  | None => Int.INT64_MIN
  end.

(** The exact value of a double as a rational (0 for NaN and infinities). *)
Definition to_Q (d : spec_float) : Q :=
  match d with
  | S754_finite s m e =>
      let q := match e with
               | Z0 => inject_Z (Z.pos m)
               | Z.pos k => inject_Z (Z.pos m * 2 ^ Z.pos k)
               | Z.neg k => Qmake (Z.pos m) (2 ^ k)
               end in
      if s then Qopp q else q
  | _ => inject_Z 0
  end.

End Double.

(** ** Player *)
Module Player.

Inductive XCall :=
  | XTestFakeMotionEvent (x y : Z)
  | XTestFakeButtonEvent (button : Z) (is_press : bool)
  | XTestFakeKeyEvent (keycode : Z) (is_press : bool)
  | XFlush.

(** What handling one event asks of the environment, in order. *)
Inductive Act :=
  | Call (c : XCall)
  | Sleep (ms : Z).

#[global] Instance XCall_eq_dec : EqDecision XCall.
Proof. solve_decision. Defined.

#[global] Instance Act_eq_dec : EqDecision Act.
Proof. solve_decision. Defined.

(** The [absx]/[absy] computation that opens both mouse cases; the boolean
    tells whether the inner branch (a monitor of that name exists now) ran. *)
Definition resolve (dpy : Layout) (e : Event) : Z * Z * bool :=
  if bool_decide (ev_monitor e = "") then (ev_x e, ev_y e, false)
  else
    let mi := Monitor.findMonitorByName dpy (ev_monitor e) in
    if bool_decide (mi_name mi = "") then (ev_x e, ev_y e, false)
    else (Int.add (mi_x mi) (ev_relx e), Int.add (mi_y mi) (ev_rely e), true).

Definition auto_release (button : Z) : list Act :=
  [Sleep 30; Call (XTestFakeButtonEvent button false); Call XFlush].

Definition nextIsRelease (events : list Event) (i : nat) (e : Event) : bool :=
  match events !! S i with
  | Some next =>
      bool_decide (ev_type next = MouseButton)
      && (ev_button next =? ev_button e)%Z
      && negb (ev_pressed next)
  | None => false
  end.

(** The [switch (e.type)] of the replay loop for [events[i]]. *)
Definition dispatch (dpy : Layout) (events : list Event) (i : nat) (e : Event)
    : list Act :=
  match ev_type e with
  | MouseMove =>
      let '(absx, absy, _) := resolve dpy e in
      [Call (XTestFakeMotionEvent absx absy); Call XFlush]
  | MouseButton =>
      let '(absx, absy, found) := resolve dpy e in
      (if found then [Call (XTestFakeMotionEvent absx absy)] else [])
      ++ [Call (XTestFakeButtonEvent (ev_button e) (ev_pressed e)); Call XFlush]
      ++ (if ev_pressed e then
            if nextIsRelease events i e then [Sleep 15]
            else auto_release (ev_button e)
          else [])
  | Key =>
      [Call (XTestFakeKeyEvent (ev_keycode e) (ev_pressed e)); Call XFlush]
  end.

(** The environment of a replay: the layout the X server reports at each
    instant, and the instant of the first [stop()] call, if one is made. *)
Record Env := {
  layout_at : Z -> Layout;
  stop_at : option Z
}.

(** One handled event, as the loop saw it: pass and index, the pass start
    [T0], the clock when [running] was tested for it, the target instant,
    the clock when the switch was entered, and the X calls made for it with
    the clock at each. *)
Record Fired := {
  f_loop : nat;
  f_index : nat;
  f_event : Event;
  f_start : Z;
  f_checked : Z;
  f_target : Z;
  f_at : Z;
  f_calls : list (Z * XCall)
}.

(** [clock] is the monotonic clock in milliseconds; [latency] is the time
    each successive call or sleep takes beyond what was asked (the head is
    consumed by the next one, none left means none taken). *)
Record World := {
  clock : Z;
  latency : list N;
  fired : list Fired
}.

Definition tick (w : World) : World :=
  {| clock := clock w + Z.of_N (hd 0%N (latency w));
     latency := tl (latency w);
     fired := fired w |}.

Definition advance (ms : Z) (w : World) : World :=
  {| clock := clock w + Z.max 0 ms; latency := latency w; fired := fired w |}.

(** [nanosleep] and [sleep_for]: at least the requested time passes. *)
Definition sleep (ms : Z) (w : World) : World := tick (advance ms w).

Fixpoint exec (acts : list Act) (w : World) : list (Z * XCall) * World :=
  match acts with
  | [] => ([], w)
  | Call c :: rest =>
      let '(calls, w') := exec rest (tick w) in ((clock w, c) :: calls, w')
  | Sleep ms :: rest => exec rest (sleep ms w)
  end.

(** The value of the [running] flag: set when the thread starts (at [c0]),
    cleared by a [stop()] made after that. *)
Definition running (env : Env) (c0 : Z) (w : World) : bool :=
  match stop_at env with
  | Some tau => negb ((c0 <=? tau)%Z && (tau <=? clock w)%Z)
  | None => true
  end.

Definition offset (speed : spec_float) (ms : Z) : Z :=
  Double.to_int64 (Double.div (Double.of_Z ms) speed).

(** The wait in front of the switch. *)
Definition wait_until (target : Z) (w : World) : World :=
  let n := clock w in
  if (target >? n)%Z then
    let delta := Int.sub64 target n in
    sleep (delta / 1000 * 1000 + delta mod 1000) w
  else w.

Definition record_fired (f : Fired) (w : World) : World :=
  {| clock := clock w; latency := latency w; fired := fired w ++ [f] |}.

(** The body of the inner [for] loop for [e = events[i]]: the wait, the
    switch, and the entry kept for it. *)
Definition turn (env : Env) (speed : spec_float) (events : list Event)
    (k : nat) (start : Z) (i : nat) (e : Event) (w : World) : World :=
  let target := Int.add64 start (offset speed (ev_ms_since_start e)) in
  let w1 := wait_until target w in
  let '(calls, w2) := exec (dispatch (layout_at env (clock w1)) events i e) w1 in
  record_fired
    {| f_loop := k; f_index := i; f_event := e; f_start := start;
       f_checked := clock w; f_target := target; f_at := clock w1;
       f_calls := calls |} w2.

(** The inner [for] loop from index [i] on; [rest] is [events] from [i]. *)
Fixpoint pass (env : Env) (c0 : Z) (speed : spec_float) (events : list Event)
    (k : nat) (start : Z) (i : nat) (rest : list Event) (w : World) : World :=
  match rest with
  | [] => w
  | e :: rest' =>
      if running env c0 w then
        pass env c0 speed events k start (S i) rest'
          (turn env speed events k start i e w)
      else w
  end.

(** The outer [for] loop with [todo] iterations left of [loops]. *)
Fixpoint loop (env : Env) (c0 : Z) (speed : spec_float) (events : list Event)
    (todo : nat) (k : nat) (w : World) : World :=
  match todo with
  | O => w
  | S todo' =>
      if running env c0 w then
        loop env c0 speed events todo' (S k)
          (pass env c0 speed events k (clock w) 0 events w)
      else w
  end.

Inductive Signal :=
  | status (s : string)
  | status_playing (loops : Z) (speed : spec_float).

Definition safety_release : list Act :=
  map (fun b => Call (XTestFakeButtonEvent b false)) [1; 2; 3; 4; 5; 6; 7]%Z
  ++ [Call XFlush].

Record Outcome := {
  signals : list Signal;
  handled : list Fired;
  final_calls : list (Z * XCall);
  finished_at : Z
}.

(** The world in which the thread starts: the clock reads [now], [lat] are
    the latencies to come, nothing was handled yet. *)
Definition started (now : Z) (lat : list N) : World :=
  {| clock := now; latency := lat; fired := [] |}.

(** [PlayerThread::run], started when the clock reads [now]. *)
Definition run (display_ok : bool) (env : Env) (speed : spec_float)
    (loops : Z) (events : list Event) (now : Z) (lat : list N) : Outcome :=
  match events with
  | [] => {| signals := [status "No events to play"]; handled := [];
             final_calls := []; finished_at := now |}
  | _ :: _ =>
      if display_ok then
        let w1 :=
          loop env now speed events (Z.to_nat loops) 0 (started now lat) in
        let '(calls, w2) := exec safety_release w1 in
        {| signals := [status_playing loops speed; status "Playback finished."];
           handled := fired w1; final_calls := calls; finished_at := clock w2 |}
      else {| signals := [status "Failed to open X display"]; handled := [];
              final_calls := []; finished_at := now |}
  end.

(** [MainWindow::onTogglePlay] (and the Play button of the first revision):
    the loop count handed to the player. *)
Definition loops_setting (chkInfinite : bool) (spinLoops : Z) : Z :=
  if chkInfinite then Int.INT_MAX else spinLoops.

(** What the loop keeps for each handled event: the target is the pass
    start plus the offset, the switch is entered at or after the target and
    the pass start, and every X call for the event comes at or after that. *)
Definition on_schedule (speed : spec_float) (f : Fired) : Prop :=
  f_target f
  = Int.add64 (f_start f) (offset speed (ev_ms_since_start (f_event f)))
  /\ (f_target f <= f_at f)%Z
  /\ (f_start f <= f_at f)%Z
  /\ Forall (fun c => (f_at f <= c.1)%Z) (f_calls f).

(** The handled events of pass [k] when nothing cuts it short: the whole
    log, in order. *)
Definition whole_pass (events : list Event) (k : nat)
    : list (nat * nat * Event) :=
  imap (fun j e => (k, j, e)) events.

(** The reading of "never before T0 + t/s" with the exact quotient. *)
Definition on_exact_schedule (speed : spec_float) (f : Fired) : Prop :=
  Qle (inject_Z (f_start f)
       + inject_Z (ev_ms_since_start (f_event f)) / Double.to_Q speed)
      (inject_Z (f_at f)).

(** The same environment in which no stop request is ever made. *)
Definition without_stop (env : Env) : Env :=
  {| layout_at := layout_at env; stop_at := None |}.

End Player.

(** ** Hotkey combos and configuration *)

Record HotkeyCombo := {
  keys : list Z;
  displayName : string
}.

Record Config := {
  lastDir : string;
  startRecording : HotkeyCombo;
  startPlayback : HotkeyCombo;
  stopPlayback : HotkeyCombo
}.

#[global] Instance HotkeyCombo_eq_dec : EqDecision HotkeyCombo.
Proof. solve_decision. Defined.

(** [std::sort] on a vector of keycodes. *)
Definition sort_keys (v : list Z) : list Z := merge_sort Z.le v.

(** ** Global key watcher and the hotkey trigger *)
Module Hotkey.

Inductive RawKey :=
  | XI_RawKeyPress (detail : Z)
  | XI_RawKeyRelease (detail : Z).

(** [std::vector<unsigned int> v(downSet.begin(), downSet.end())]: a
    [std::set] is walked in increasing order. *)
Definition snapshot (downSet : gset Z) : list Z := sort_keys (elements downSet).

(** One notification handled by [GlobalKeyWatcher::run]: the new set and
    the argument of the [currentDownSetChanged] signal it emits. *)
Definition step (downSet : gset Z) (ev : RawKey) : gset Z * list Z :=
  match ev with
  | XI_RawKeyPress d =>
      let s := {[ Int.to_uint d ]} ∪ downSet in (s, snapshot s)
  | XI_RawKeyRelease d =>
      let s := downSet ∖ {[ Int.to_uint d ]} in (s, snapshot s)
  end.

(** The signals emitted for a stream of notifications, oldest first. *)
Fixpoint emitted (downSet : gset Z) (evs : list RawKey) : list (list Z) :=
  match evs with
  | [] => []
  | ev :: rest => let '(s, v) := step downSet ev in v :: emitted s rest
  end.

Fixpoint final_set (downSet : gset Z) (evs : list RawKey) : gset Z :=
  match evs with
  | [] => downSet
  | ev :: rest => final_set (fst (step downSet ev)) rest
  end.

(** The slots of [MainWindow] a matching combo invokes (queued). *)
Inductive Invoked := onToggleRecord | onTogglePlay | onStopPlaybackHotkey.

#[global] Instance Invoked_eq_dec : EqDecision Invoked.
Proof. solve_decision. Defined.

(** One of the three blocks of the handler: the combo is skipped when empty
    and compared, sorted, with the sorted down-set. *)
Definition triggers (combo : HotkeyCombo) (s : list Z) : bool :=
  negb (bool_decide (keys combo = []))
  && bool_decide (sort_keys (keys combo) = s).

(** The handler connected to [currentDownSetChanged]. *)
Definition on_currentDownSetChanged (config : Config) (downset : list Z)
    : list Invoked :=
  let s := sort_keys downset in
  (if triggers (startRecording config) s then [onToggleRecord] else [])
  ++ (if triggers (startPlayback config) s then [onTogglePlay] else [])
  ++ (if triggers (stopPlayback config) s then [onStopPlaybackHotkey] else []).

(** The combo each slot is bound to. *)
Definition bound_to (config : Config) (a : Invoked) : HotkeyCombo :=
  match a with
  | onToggleRecord => startRecording config
  | onTogglePlay => startPlayback config
  | onStopPlaybackHotkey => stopPlayback config
  end.

(** Watcher and handler together: what each notification invokes. *)
Definition watch (config : Config) (evs : list RawKey) : list (list Invoked) :=
  map (on_currentDownSetChanged config) (emitted ∅ evs).

End Hotkey.

(** ** Combo capture dialog *)
Module CaptureDialog.

Inductive Target := ForStartRecording | ForStartPlayback | ForStopPlayback.

Definition get (target : Target) (config : Config) : HotkeyCombo :=
  match target with
  | ForStartRecording => startRecording config
  | ForStartPlayback => startPlayback config
  | ForStopPlayback => stopPlayback config
  end.

Definition set (target : Target) (c : HotkeyCombo) (config : Config) : Config :=
  match target with
  | ForStartRecording =>
      {| lastDir := lastDir config; startRecording := c;
         startPlayback := startPlayback config;
         stopPlayback := stopPlayback config |}
  | ForStartPlayback =>
      {| lastDir := lastDir config; startRecording := startRecording config;
         startPlayback := c; stopPlayback := stopPlayback config |}
  | ForStopPlayback =>
      {| lastDir := lastDir config; startRecording := startRecording config;
         startPlayback := startPlayback config; stopPlayback := c |}
  end.

(** What reaches the dialog's event loop: a key captured by the worker, a
    click on one of the three buttons, or the combo timer running out. *)
Inductive Input :=
  | capturedKey (keycode : Z)
  | clickReset
  | clickSave
  | clickCancel
  | timerTimeout.

Record Dialog := {
  seq : list Z;
  worker_running : bool;
  timer_active : bool
}.

Definition useTimeout (target : Target) : bool :=
  match target with ForStartRecording => false | _ => true end.

(** The state in which [dlg.exec()] is entered. *)
Definition opened (target : Target) (config : Config) : Dialog :=
  let seq0 := keys (get target config) in
  {| seq := if (3 <=? length seq0)%nat then [] else seq0;
     worker_running := true;
     timer_active := useTimeout target |}.

Section Display.

(** [keycodeToString]: the label XKB gives a keycode. *)
Variable keycodeToString : Z -> string.

Definition join (sep : string) (parts : list string) : string :=
  match parts with
  | [] => ""
  | p :: rest => fold_left (fun acc q => acc +:+ sep +:+ q) rest p
  end.

Definition comboToDisplay (ks : list Z) : string :=
  match ks with
  | [] => "None"
  | _ => join " + " (map keycodeToString ks)
  end.

Inductive Closed := Accepted | Rejected.

(** The dialog's event loop: [Some] once a button closed it. *)
Fixpoint exec (target : Target) (config : Config) (d : Dialog)
    (inputs : list Input) : Config * option Closed :=
  match inputs with
  | [] => (config, None)
  | capturedKey k :: rest =>
      if worker_running d then
        if bool_decide (k ∈ seq d) then exec target config d rest
        else if (length (seq d) <? 3)%nat then
          exec target config
            {| seq := seq d ++ [k]; worker_running := true;
               timer_active := useTimeout target |} rest
        else exec target config d rest
      else exec target config d rest
  | clickReset :: rest =>
      exec target config
        {| seq := []; worker_running := worker_running d;
           timer_active := false |} rest
  | clickCancel :: _ => (config, Some Rejected)
  | clickSave :: _ =>
      let c := {| keys := seq d;
                  displayName := match seq d with
                                 | [] => "None"
                                 | _ => comboToDisplay (seq d)
                                 end |} in
      (set target c config, Some Accepted)
  | timerTimeout :: rest =>
      if timer_active d then
        exec target config
          {| seq := seq d; worker_running := false; timer_active := false |}
          rest
      else exec target config d rest
  end.

(** [MainWindow::openCaptureDialog]: the configuration after the dialog. *)
Definition openCaptureDialog (target : Target) (config : Config)
    (inputs : list Input) : Config :=
  fst (exec target config (opened target config) inputs).

End Display.

End CaptureDialog.

(** ** Qt's JSON values

    The containers of QtCore as far as the program uses them.  A number is a
    double; [value] of a missing key is [Undefined]; each [toX] accessor
    answers the default of its type on a value of another kind. *)
Module Json.

#[warnings="-register-all"]
Inductive QJsonValue :=
  | Null
  | Bool (b : bool)
  | Double (d : spec_float)
  | String (s : string)
  | Array (a : list QJsonValue)
  | Object (o : gmap string QJsonValue)
  | Undefined.

Inductive QJsonDocument :=
  | DocNull
  | DocArray (a : list QJsonValue)
  | DocObject (o : gmap string QJsonValue).

Definition value (o : gmap string QJsonValue) (key : string) : QJsonValue :=
  match o !! key with
  | Some v => v
  | None => Undefined
  end.

Definition toObject (v : QJsonValue) : gmap string QJsonValue :=
  match v with Object o => o | _ => ∅ end.

Definition toArray (v : QJsonValue) : list QJsonValue :=
  match v with Array a => a | _ => [] end.

Definition toString (v : QJsonValue) : string :=
  match v with String s => s | _ => "" end.

Definition toBool (v : QJsonValue) : bool :=
  match v with Bool b => b | _ => false end.

Definition toDouble (v : QJsonValue) : spec_float :=
  match v with Double d => d | _ => S754_zero false end.

(** [toInt]: the number when it is a whole number an [int] can hold. *)
Definition toInt (v : QJsonValue) : Z :=
  match v with
  | Double d =>
      match Double.trunc d with
      | Some z => if Double.is_integral d && Int.is_int z then z else 0%Z
      | None => 0%Z
      end
  | _ => 0%Z
  end.

(** [QJsonValue(int)] and [QJsonValue(double)]. *)
Definition of_int (n : Z) : QJsonValue := Double (Double.of_Z n).
Definition of_double (d : spec_float) : QJsonValue := Double d.

End Json.

(** ** The .recq macro file

    [toJson] and [fromJson] are Qt's; a file is taken to hold the document
    that was written to it. *)
Module Recq.

Import Json.

(** The body of the [for] loop of [saveRecq]. *)
Definition save_record (e : Event) : QJsonValue :=
  let o : gmap string QJsonValue :=
    <["t" := of_double (Double.of_Z (ev_ms_since_start e))]> ∅ in
  Object
    match ev_type e with
    | MouseMove =>
        <["y" := of_int (ev_y e)]>
          (<["x" := of_int (ev_x e)]> (<["type" := String "mm"]> o))
    | MouseButton =>
        <["down" := Bool (ev_pressed e)]>
          (<["btn" := of_int (ev_button e)]>
             (<["y" := of_int (ev_y e)]>
                (<["x" := of_int (ev_x e)]> (<["type" := String "mb"]> o))))
    | Key =>
        <["down" := Bool (ev_pressed e)]>
          (<["code" := of_int (Int.to_int (ev_keycode e))]>
             (<["type" := String "key"]> o))
    end.

Definition save_document (evs : list Event) : QJsonDocument :=
  DocObject
    (<["events" := Array (map save_record evs)]>
       (<["format" := String "recq-v1"]> ∅)).

(** [saveRecq]: the success flag and the file written, if it could be
    opened for writing. *)
Definition saveRecq (writable : bool) (evs : list Event)
    : bool * option QJsonDocument :=
  if writable then (true, Some (save_document evs)) else (false, None).

(** The body of the [for] loops of [loadRecq], the same in both. *)
Definition load_record (v : QJsonValue) : Event :=
  let o := toObject v in
  let t := Double.to_int64 (toDouble (value o "t")) in
  let type := toString (value o "type") in
  if bool_decide (type = "mm") then
    {| ev_type := MouseMove; ev_ms_since_start := t;
       ev_x := toInt (value o "x"); ev_y := toInt (value o "y");
       ev_button := 0; ev_pressed := false; ev_keycode := 0;
       ev_monitor := ""; ev_relx := 0; ev_rely := 0 |}
  else if bool_decide (type = "mb") then
    {| ev_type := MouseButton; ev_ms_since_start := t;
       ev_x := toInt (value o "x"); ev_y := toInt (value o "y");
       ev_button := toInt (value o "btn");
       ev_pressed := toBool (value o "down"); ev_keycode := 0;
       ev_monitor := ""; ev_relx := 0; ev_rely := 0 |}
  else if bool_decide (type = "key") then
    {| ev_type := Key; ev_ms_since_start := t; ev_x := 0; ev_y := 0;
       ev_button := 0; ev_pressed := toBool (value o "down");
       ev_keycode := Int.to_uint (toInt (value o "code"));
       ev_monitor := ""; ev_relx := 0; ev_rely := 0 |}
  else
    {| ev_type := ev_type Event_default; ev_ms_since_start := t;
       ev_x := 0; ev_y := 0; ev_button := 0; ev_pressed := false;
       ev_keycode := 0; ev_monitor := ""; ev_relx := 0; ev_rely := 0 |}.

Definition load_document (doc : QJsonDocument) : list Event :=
  match doc with
  | DocObject root => map load_record (toArray (value root "events"))
  | DocArray a => map load_record a
  | DocNull => []
  end.

(** [loadRecq]: [None] is a file that cannot be opened for reading. *)
Definition loadRecq (file : option QJsonDocument) : list Event :=
  match file with
  | None => []
  | Some doc => load_document doc
  end.

(** An event whose members hold values of their C++ types, with a timestamp
    below 2^53 ms in size, the span in which every integer is a double. *)
Definition storable (e : Event) : bool :=
  Int.is_int (ev_x e) && Int.is_int (ev_y e) && Int.is_int (ev_button e)
  && Int.is_uint (ev_keycode e)
  && ((- 2 ^ 53 <? ev_ms_since_start e) && (ev_ms_since_start e <? 2 ^ 53))%Z.

(** What is left of an event once it went through the file. *)
Definition persisted (e : Event) : Event :=
  match ev_type e with
  | MouseMove =>
      {| ev_type := MouseMove; ev_ms_since_start := ev_ms_since_start e;
         ev_x := ev_x e; ev_y := ev_y e; ev_button := 0; ev_pressed := false;
         ev_keycode := 0; ev_monitor := ""; ev_relx := 0; ev_rely := 0 |}
  | MouseButton =>
      {| ev_type := MouseButton; ev_ms_since_start := ev_ms_since_start e;
         ev_x := ev_x e; ev_y := ev_y e; ev_button := ev_button e;
         ev_pressed := ev_pressed e; ev_keycode := 0; ev_monitor := "";
         ev_relx := 0; ev_rely := 0 |}
  | Key =>
      {| ev_type := Key; ev_ms_since_start := ev_ms_since_start e;
         ev_x := 0; ev_y := 0; ev_button := 0; ev_pressed := ev_pressed e;
         ev_keycode := ev_keycode e; ev_monitor := ""; ev_relx := 0;
         ev_rely := 0 |}
  end.

(** Type, timestamp and the members the variant of [e] carries agree. *)
Definition carried_equal (e e' : Event) : Prop :=
  ev_type e' = ev_type e /\ ev_ms_since_start e' = ev_ms_since_start e /\
  match ev_type e with
  | MouseMove => ev_x e' = ev_x e /\ ev_y e' = ev_y e
  | MouseButton =>
      ev_x e' = ev_x e /\ ev_y e' = ev_y e /\
      ev_button e' = ev_button e /\ ev_pressed e' = ev_pressed e
  | Key => ev_keycode e' = ev_keycode e /\ ev_pressed e' = ev_pressed e
  end.

(** The members the variant of [e] does not use hold their defaults, as in
    every event the recorder or the loader builds. *)
Definition unused_default (e : Event) : Prop :=
  match ev_type e with
  | MouseMove => ev_button e = 0%Z /\ ev_pressed e = false /\ ev_keycode e = 0%Z
  | MouseButton => ev_keycode e = 0%Z
  | Key => ev_x e = 0%Z /\ ev_y e = 0%Z /\ ev_button e = 0%Z
  end.

End Recq.

(** ** Concrete inputs used in the examples below *)
Module Sample.

Definition config_recording (record_keys : list Z) : Config :=
  {| lastDir := "";
     startRecording := {| keys := record_keys; displayName := "" |};
     startPlayback := {| keys := []; displayName := "None" |};
     stopPlayback := {| keys := []; displayName := "None" |} |}.

Definition config_full_playback : Config :=
  {| lastDir := "/home/user";
     startRecording := {| keys := []; displayName := "None" |};
     startPlayback :=
       {| keys := [37; 50; 38]%Z; displayName := "Ctrl + Shift + a" |};
     stopPlayback := {| keys := [9]%Z; displayName := "Esc" |} |}.

(** Two monitors side by side, the second one named "HDMI-1". *)
Definition layout_two : Layout :=
  Some [ Some {| out_name := "eDP-1"; out_connected := true;
                 out_crtc := Some {| crtc_x := 0; crtc_y := 0;
                                     crtc_width := 1920; crtc_height := 1080 |} |};
         Some {| out_name := "HDMI-1"; out_connected := true;
                 out_crtc := Some {| crtc_x := 1920; crtc_y := 0;
                                     crtc_width := 2560; crtc_height := 1440 |} |} ].

(** The pointer at (100, 200) on the first of two monitors, [now] on the
    clock. *)
Definition observed (now : Z) : Recorder.Observed :=
  {| Recorder.obs_now := now; Recorder.obs_px := 100; Recorder.obs_py := 200;
     Recorder.obs_layout := layout_two |}.

Definition button_press (now b : Z) : Recorder.RawEvent :=
  {| Recorder.evtype := Recorder.XI_RawButtonPress; Recorder.detail := b;
     Recorder.seen := observed now |}.

Definition button_release (now b : Z) : Recorder.RawEvent :=
  {| Recorder.evtype := Recorder.XI_RawButtonRelease; Recorder.detail := b;
     Recorder.seen := observed now |}.

Definition key_press (t code : Z) : Event :=
  {| ev_type := Key; ev_ms_since_start := t; ev_x := 0; ev_y := 0;
     ev_button := 0; ev_pressed := true; ev_keycode := code;
     ev_monitor := ""; ev_relx := 0; ev_rely := 0 |}.

(** A left click recorded 10 right and 20 below the origin of "HDMI-1"
    when that monitor stood at (3000, 0). *)
Definition click : Event :=
  {| ev_type := MouseButton; ev_ms_since_start := 40; ev_x := 3010; ev_y := 20;
     ev_button := 1; ev_pressed := true; ev_keycode := 0;
     ev_monitor := "HDMI-1"; ev_relx := 10; ev_rely := 20 |}.

(** No XRandR resources and no stop request. *)
Definition env_quiet : Player.Env :=
  {| Player.layout_at := fun _ => None; Player.stop_at := None |}.

End Sample.

(** ** Layouts, logs and replays: notions of the further properties *)
Module Layouts.

(** The outputs both search loops look at: connected ones with a CRTC, in
    the order of [res->outputs]. *)
Fixpoint eligible (outs : list (option OutputInfo))
    : list (OutputInfo * CrtcInfo) :=
  match outs with
  | [] => []
  | None :: rest => eligible rest
  | Some o :: rest =>
      if out_connected o then
        match out_crtc o with
        | Some c => (o, c) :: eligible rest
        | None => eligible rest
        end
      else eligible rest
  end.

Definition outputs (dpy : Layout) : list (OutputInfo * CrtcInfo) :=
  match dpy with
  | Some outs => eligible outs
  | None => []
  end.

(** No two of these outputs carry the same name. *)
Definition distinct_names (dpy : Layout) : Prop :=
  NoDup ((fun oc => out_name oc.1) <$> outputs dpy).

(** The right and the bottom edge of the output are values of an [int]. *)
Definition fits (oc : OutputInfo * CrtcInfo) : Prop :=
  Int.is_int (crtc_x oc.2 + Int.to_int (crtc_width oc.2)) = true
  /\ Int.is_int (crtc_y oc.2 + Int.to_int (crtc_height oc.2)) = true.

End Layouts.

Module Logs.

(** The positions of the pointer moves of a log, in order. *)
Definition move_positions (log : list Event) : list (Z * Z) :=
  map (fun e => (ev_x e, ev_y e))
      (filter (fun e => ev_type e = MouseMove) log).

(** No two neighbours of the list are equal. *)
Fixpoint no_repeat (l : list (Z * Z)) : Prop :=
  match l with
  | a :: (b :: _) as rest => a <> b /\ no_repeat rest
  | _ => True
  end.


(** The clock readings of a capture: never below [start], never going
    back, and less than 2^63 ms after [start] at the end. *)
Definition ticking (start : Z) (raw : list Recorder.RawEvent)
    (stop : Recorder.Observed) : Prop :=
  Sorted Z.le (start :: map (fun ev => Recorder.obs_now (Recorder.seen ev)) raw
                     ++ [Recorder.obs_now stop])
  /\ (Recorder.obs_now stop - start < 2 ^ 63)%Z.

(** The last recorded move is where [last_x], [last_y] say, and no two
    moves in a row are at the same position. *)
Definition moves_tracked (st : Recorder.State) : Prop :=
  no_repeat (move_positions (Recorder.events st))
  /\ (move_positions (Recorder.events st) = []
      \/ last (move_positions (Recorder.events st))
         = Some (Recorder.last_x st, Recorder.last_y st)).

End Logs.

Module Taps.

Import Player.

(** The X calls of a sequence of acts, sleeps left out. *)
Definition calls_of (acts : list Act) : list XCall :=
  omap (fun a => match a with Call c => Some c | Sleep _ => None end) acts.

(** The positions of the pointer motions among a sequence of acts. *)
Definition motions (acts : list Act) : list (Z * Z) :=
  omap (fun a => match a with
                 | Call (XTestFakeMotionEvent x y) => Some (x, y)
                 | _ => None
                 end) acts.

(** Every X call of a replay, in the order made: those of the handled
    events, then the closing ones. *)
Definition all_calls (out : Outcome) : list XCall :=
  (concat (f_calls <$> handled out) ++ final_calls out).*2.

(** Each press in the list has a release of the same button after it. *)
Definition settled (l : list XCall) : Prop :=
  forall pre b post,
    l = pre ++ XTestFakeButtonEvent b true :: post ->
    XTestFakeButtonEvent b false ∈ post.

(** Each press of one of the buttons 1..7 has a release of it after it. *)
Definition settled_1_to_7 (l : list XCall) : Prop :=
  forall pre b post,
    l = pre ++ XTestFakeButtonEvent b true :: post ->
    (1 <= b <= 7)%Z ->
    XTestFakeButtonEvent b false ∈ post.

Definition is_button (c : XCall) : bool :=
  match c with XTestFakeButtonEvent _ _ => true | _ => false end.

(** [next] is the release of the button that [e] presses. *)
Definition released_by (e : Event) (next : option Event) : bool :=
  match next with
  | Some n =>
      bool_decide (ev_type n = MouseButton)
      && (ev_button n =? ev_button e)%Z
      && negb (ev_pressed n)
  | None => false
  end.

(** The button calls made for [e] when [next] follows it in the log. *)
Definition tap (e : Event) (next : option Event) : list XCall :=
  match ev_type e with
  | MouseButton =>
      XTestFakeButtonEvent (ev_button e) (ev_pressed e)
      :: (if ev_pressed e && negb (released_by e next)
          then [XTestFakeButtonEvent (ev_button e) false] else [])
  | _ => []
  end.

(** The button calls of one pass over [rest]. *)
Fixpoint taps_from (rest : list Event) : list XCall :=
  match rest with
  | [] => []
  | e :: rest' => tap e (head rest') ++ taps_from rest'
  end.

End Taps.

Module Keys.

Import Hotkey.

(** Whether [code] is down after the notifications [evs], when [down]
    tells whether it was before: its latest notification decides. *)
Definition down_after (code : Z) (down : bool) (evs : list RawKey) : bool :=
  fold_left
    (fun d ev =>
       match ev with
       | XI_RawKeyPress k => if bool_decide (Int.to_uint k = code) then true else d
       | XI_RawKeyRelease k => if bool_decide (Int.to_uint k = code) then false else d
       end)
    evs down.

End Keys.


(** ** The configuration file

    [config.json] in the application's configuration directory: the last
    directory used and the three combos. *)
Module Settings.

Import Json.

(** What [loadConfig] finds at [configFilePath()]: no file, a file that
    cannot be opened for reading, or a file and the document [fromJson]
    makes of its text ([DocNull] for text that is no JSON). *)
Inductive ConfigFile :=
  | Missing
  | Unreadable
  | Holds (doc : QJsonDocument).

(** [QJsonValue::toString(defaultValue)]. *)
Definition toString_or (defaultValue : string) (v : QJsonValue) : string :=
  match v with String s => s | _ => defaultValue end.

Definition loadCombo (o : gmap string QJsonValue) : HotkeyCombo :=
  {| keys := map (fun v => Int.to_uint (toInt v)) (toArray (value o "keys"));
     displayName := toString (value o "display") |}.

(** [MainWindow::loadConfig]; [homePath] is [QDir::homePath()]. *)
Definition loadConfig (homePath : string) (file : ConfigFile)
    (config : Config) : Config :=
  match file with
  | Missing =>
      {| lastDir := homePath;
         startRecording := {| keys := []; displayName := "" |};
         startPlayback := {| keys := []; displayName := "" |};
         stopPlayback := {| keys := []; displayName := "" |} |}
  | Unreadable => config
  | Holds (DocObject root) =>
      {| lastDir := toString_or homePath (value root "lastDir");
         startRecording := loadCombo (toObject (value root "startRecording"));
         startPlayback := loadCombo (toObject (value root "startPlayback"));
         stopPlayback := loadCombo (toObject (value root "stopPlayback")) |}
  | Holds _ => config
  end.

Definition saveCombo (c : HotkeyCombo) : QJsonValue :=
  Object
    (<["keys" := Array (map (fun k => of_int (Int.to_int k)) (keys c))]>
       (<["display" := String (displayName c)]> ∅)).

Definition config_document (config : Config) : QJsonDocument :=
  DocObject
    (<["stopPlayback" := saveCombo (stopPlayback config)]>
       (<["startPlayback" := saveCombo (startPlayback config)]>
          (<["startRecording" := saveCombo (startRecording config)]>
             (<["lastDir" := String (lastDir config)]> ∅)))).

(** [MainWindow::saveConfig]: the file afterwards; it is left as it was
    when it cannot be opened for writing. *)
Definition saveConfig (writable : bool) (config : Config)
    (file : ConfigFile) : ConfigFile :=
  if writable then Holds (config_document config) else file.

(** Every key of the three combos is an [unsigned int]. *)
Definition keys_unsigned (config : Config) : Prop :=
  Forall (fun k => Int.is_uint k = true)
    (keys (startRecording config) ++ keys (startPlayback config)
     ++ keys (stopPlayback config)).

(** The six entries of the Hotkeys menu. *)
Inductive MenuAction :=
  | SetCombo (target : CaptureDialog.Target)
  | ClearCombo (target : CaptureDialog.Target).

(** The handler of the Hotkeys button: [sel] is what [menu.exec] returns,
    [inputs] what reaches the capture dialog if one is opened.  The result
    is the configuration and the configuration file afterwards. *)
Definition hotkeyMenu (keycodeToString : Z -> string)
    (sel : option MenuAction) (inputs : list CaptureDialog.Input)
    (writable : bool) (config : Config) (file : ConfigFile)
    : Config * ConfigFile :=
  match sel with
  | None => (config, file)
  | Some (SetCombo target) =>
      match CaptureDialog.exec keycodeToString target config
              (CaptureDialog.opened target config) inputs with
      | (config', Some CaptureDialog.Accepted) =>
          (config', saveConfig writable config' file)
      | (config', _) => (config', file)
      end
  | Some (ClearCombo target) =>
      let config' :=
        CaptureDialog.set target {| keys := []; displayName := "" |} config in
      (config', saveConfig writable config' file)
  end.

(** The slot a combo invokes. *)
Definition slot_of (target : CaptureDialog.Target) : Hotkey.Invoked :=
  match target with
  | CaptureDialog.ForStartRecording => Hotkey.onToggleRecord
  | CaptureDialog.ForStartPlayback => Hotkey.onTogglePlay
  | CaptureDialog.ForStopPlayback => Hotkey.onStopPlaybackHotkey
  end.

(** A value-initialised [Config], as the constructor of the window finds
    it. *)
Definition Config_default : Config :=
  {| lastDir := "";
     startRecording := {| keys := []; displayName := "" |};
     startPlayback := {| keys := []; displayName := "" |};
     stopPlayback := {| keys := []; displayName := "" |} |}.

(** The file gives back [config] at the next start of the program. *)
Definition in_sync (homePath : string) (config : Config)
    (file : ConfigFile) : Prop :=
  loadConfig homePath file Config_default = config.

(** Every key the capture worker reports is an [unsigned int]. *)
Definition captures_unsigned (inputs : list CaptureDialog.Input) : Prop :=
  forall k, CaptureDialog.capturedKey k ∈ inputs -> Int.is_uint k = true.

End Settings.

(** ** The main window

    The slots and handlers of [MainWindow] as steps on its members; what
    the worker threads and the dialogs answer comes in with the input.  A
    handler is one step, but for the Save handler: it reads the log, runs a
    modal file dialog and reads the log again, so what the event loop of
    that dialog delivers is handled between its two parts. *)
Module Window.

Import Json Settings.

(** [QString::contains(needle, Qt::CaseInsensitive)] and
    [QString::endsWith] on ASCII text. *)
Definition lower (c : Ascii.ascii) : Ascii.ascii :=
  let n := Ascii.nat_of_ascii c in
  if (65 <=? n)%nat && (n <=? 90)%nat then Ascii.ascii_of_nat (n + 32) else c.

Fixpoint lowered (s : string) : string :=
  match s with
  | EmptyString => EmptyString
  | String.String c rest => String.String (lower c) (lowered rest)
  end.

Fixpoint occurs (needle hay : string) : bool :=
  match hay with
  | EmptyString => String.prefix needle hay
  | String.String _ rest => String.prefix needle hay || occurs needle rest
  end.

Definition contains_CaseInsensitive (s needle : string) : bool :=
  occurs (lowered needle) (lowered s).

Fixpoint endsWith (s suffix : string) : bool :=
  match s with
  | EmptyString => bool_decide (suffix = EmptyString)
  | String.String _ rest => bool_decide (s = suffix) || endsWith rest suffix
  end.

(** The members of a [PlayerThread] set before it is started. *)
Record Job := {
  job_events : list Event;
  job_speed : spec_float;
  job_loops : Z
}.

(** What the speed box, the loops box and the check box hold when a slot
    reads them. *)
Record Readings := {
  spinSpeed : spec_float;
  spinLoops : Z;
  chkInfinite : bool
}.

(** What a handler asks of the threads and of the disk. *)
Inductive Command :=
  | RecorderStart
  | RecorderStop
  | PlayerStart (job : Job)
  | PlayerStop
  | MacroWritten (path : string) (doc : QJsonDocument)
  | SaveFailedWarning.

(** The members of the window the handlers read and write.  [saveDialog]
    tells that the Save handler is inside [QFileDialog::getSaveFileName]:
    the dialog is modal, so its event loop delivers the queued invocations
    and the signals of the threads, and no click on the window. *)
Record State := {
  activeRecorder : bool;
  activePlayer : option Job;
  recorded : list Event;
  config : Config;
  configFile : ConfigFile;
  status : string;
  btnRecord_text : string;
  btnRecord_enabled : bool;
  btnPlay_text : string;
  btnPlay_enabled : bool;
  btnSave_enabled : bool;
  saveDialog : bool
}.

(** What reaches the event loop of the main thread.  [clickLoad] comes with
    what its file dialog answers: the path chosen (empty when the dialog
    was cancelled), [QFileInfo(path).absolutePath()], and the document read
    from the file ([None] when it does not open).  The Save handler reads
    [recorded] before and after its file dialog, so it comes in two parts:
    [clickSave] takes it up to [QFileDialog::getSaveFileName], and
    [getSaveFileName] is the answer of that dialog, with the path, its
    directory and whether the file opens for writing; what the event loop
    of the dialog delivers comes between the two.  [invoke] is a queued slot
    invocation made by the hotkey handler. *)
Inductive Input :=
  | clickRecord
  | clickPlay (r : Readings)
  | clickSave
  | getSaveFileName (path dir : string) (writable : bool)
  | clickLoad (path dir : string) (file : option QJsonDocument)
  | clickHotkeys (sel : option MenuAction)
      (inputs : list CaptureDialog.Input)
  | invoke (slot : Hotkey.Invoked) (r : Readings)
  | recorder_status (s : string)
  | recorder_finishedRecording (summary : string) (events : list Event)
  | player_status (s : string).

(** The window once its constructor has run. *)
Definition constructed (homePath : string) (file : ConfigFile) : State :=
  {| activeRecorder := false; activePlayer := None; recorded := [];
     config := loadConfig homePath file Config_default;
     configFile := file;
     status := "Ready.";
     btnRecord_text := "Record"; btnRecord_enabled := true;
     btnPlay_text := "Play"; btnPlay_enabled := false;
     btnSave_enabled := false;
     saveDialog := false |}.

Definition onToggleRecord (st : State) : State * list Command :=
  if activeRecorder st then
    ({| activeRecorder := true; activePlayer := activePlayer st;
        recorded := recorded st; config := config st;
        configFile := configFile st; status := status st;
        btnRecord_text := "Record";
        btnRecord_enabled := btnRecord_enabled st;
        btnPlay_text := btnPlay_text st;
        btnPlay_enabled := btnPlay_enabled st;
        btnSave_enabled := btnSave_enabled st;
        saveDialog := saveDialog st |},
     [RecorderStop])
  else
    ({| activeRecorder := true; activePlayer := activePlayer st;
        recorded := recorded st; config := config st;
        configFile := configFile st; status := status st;
        btnRecord_text := "Stop";
        btnRecord_enabled := btnRecord_enabled st;
        btnPlay_text := btnPlay_text st;
        btnPlay_enabled := false;
        btnSave_enabled := false;
        saveDialog := saveDialog st |},
     [RecorderStart]).

(** The handler connected to [RecorderThread::finishedRecording]; [events]
    is [activeRecorder->events]. *)
Definition on_finishedRecording (summary : string) (events : list Event)
    (st : State) : State :=
  {| activeRecorder := false; activePlayer := activePlayer st;
     recorded := events; config := config st;
     configFile := configFile st; status := summary;
     btnRecord_text := "Record";
     btnRecord_enabled := btnRecord_enabled st;
     btnPlay_text := btnPlay_text st;
     btnPlay_enabled := true;
     btnSave_enabled := negb (bool_decide (events = []));
     saveDialog := saveDialog st |}.

Definition set_status (s : string) (st : State) : State :=
  {| activeRecorder := activeRecorder st; activePlayer := activePlayer st;
     recorded := recorded st; config := config st;
     configFile := configFile st; status := s;
     btnRecord_text := btnRecord_text st;
     btnRecord_enabled := btnRecord_enabled st;
     btnPlay_text := btnPlay_text st;
     btnPlay_enabled := btnPlay_enabled st;
     btnSave_enabled := btnSave_enabled st;
     saveDialog := saveDialog st |}.

Definition onTogglePlay (r : Readings) (st : State) : State * list Command :=
  match activePlayer st with
  | Some _ => (st, [])
  | None =>
      if bool_decide (recorded st = []) then (st, [])
      else
        let job :=
          {| job_events := recorded st; job_speed := spinSpeed r;
             job_loops :=
               Player.loops_setting (chkInfinite r) (spinLoops r) |} in
        ({| activeRecorder := activeRecorder st; activePlayer := Some job;
            recorded := recorded st; config := config st;
            configFile := configFile st; status := status st;
            btnRecord_text := btnRecord_text st;
            btnRecord_enabled := false;
            btnPlay_text := "Stop";
            btnPlay_enabled := btnPlay_enabled st;
            btnSave_enabled := btnSave_enabled st;
            saveDialog := saveDialog st |},
         [PlayerStart job])
  end.

(** The handler connected to [PlayerThread::status]. *)
Definition on_player_status (s : string) (st : State) : State :=
  if contains_CaseInsensitive s "finished"
     || contains_CaseInsensitive s "Stopped" then
    {| activeRecorder := activeRecorder st; activePlayer := None;
       recorded := recorded st; config := config st;
       configFile := configFile st; status := s;
       btnRecord_text := btnRecord_text st;
       btnRecord_enabled := true;
       btnPlay_text := "Play";
       btnPlay_enabled := btnPlay_enabled st;
       btnSave_enabled := btnSave_enabled st;
       saveDialog := saveDialog st |}
  else set_status s st.

Definition onStopPlaybackHotkey (st : State) : State * list Command :=
  match activePlayer st with
  | Some _ => (st, [PlayerStop])
  | None => (st, [])
  end.

Definition set_config (c : Config) (f : ConfigFile) (st : State) : State :=
  {| activeRecorder := activeRecorder st; activePlayer := activePlayer st;
     recorded := recorded st; config := c; configFile := f;
     status := status st;
     btnRecord_text := btnRecord_text st;
     btnRecord_enabled := btnRecord_enabled st;
     btnPlay_text := btnPlay_text st;
     btnPlay_enabled := btnPlay_enabled st;
     btnSave_enabled := btnSave_enabled st;
     saveDialog := saveDialog st |}.

Definition set_saveDialog (shown : bool) (st : State) : State :=
  {| activeRecorder := activeRecorder st; activePlayer := activePlayer st;
     recorded := recorded st; config := config st;
     configFile := configFile st; status := status st;
     btnRecord_text := btnRecord_text st;
     btnRecord_enabled := btnRecord_enabled st;
     btnPlay_text := btnPlay_text st;
     btnPlay_enabled := btnPlay_enabled st;
     btnSave_enabled := btnSave_enabled st;
     saveDialog := shown |}.

Definition with_lastDir (dir : string) (c : Config) : Config :=
  {| lastDir := dir; startRecording := startRecording c;
     startPlayback := startPlayback c; stopPlayback := stopPlayback c |}.

Section Handlers.

(** [keycodeToString], and whether [config.json] opens for writing. *)
Variable keycodeToString : Z -> string.
Variable config_writable : bool.

(** The handler of the Save button as far as the file dialog: with a log
    to save, the dialog opens. *)
Definition on_btnSave_opens (st : State) : State :=
  if bool_decide (recorded st = []) then st else set_saveDialog true st.

(** The handler of the Save button from the answer of the file dialog on;
    [recorded] is what the window holds by then. *)
Definition on_btnSave_answered (path dir : string) (writable : bool)
    (st : State) : State * list Command :=
  let st := set_saveDialog false st in
  if bool_decide (path = "") then (st, [])
  else
    let path := if endsWith path ".recq" then path else path +:+ ".recq" in
    match Recq.saveRecq writable (recorded st) with
    | (true, Some doc) =>
        let c := with_lastDir dir (config st) in
        (set_config c (saveConfig config_writable c (configFile st)) st,
         [MacroWritten path doc])
    | _ => (st, [SaveFailedWarning])
    end.

(** The handler of the Load button. *)
Definition on_btnLoad (path dir : string) (file : option QJsonDocument)
    (st : State) : State * list Command :=
  if bool_decide (path = "") then (st, [])
  else
    let events := Recq.loadRecq file in
    let c := if bool_decide (events = []) then config st
             else with_lastDir dir (config st) in
    let f := if bool_decide (events = []) then configFile st
             else saveConfig config_writable c (configFile st) in
    ({| activeRecorder := activeRecorder st; activePlayer := activePlayer st;
        recorded := events; config := c; configFile := f;
        status := "Loaded "
                  +:+ NilEmpty.string_of_uint (Nat.to_uint (length events))
                  +:+ " events";
        btnRecord_text := btnRecord_text st;
        btnRecord_enabled := btnRecord_enabled st;
        btnPlay_text := btnPlay_text st;
        btnPlay_enabled := negb (bool_decide (events = []));
        btnSave_enabled := negb (bool_decide (events = []));
        saveDialog := saveDialog st |},
     []).

(** The handler of the Hotkeys button. *)
Definition on_btnHotkey (sel : option MenuAction)
    (inputs : list CaptureDialog.Input) (st : State) : State :=
  let '(c, f) :=
    hotkeyMenu keycodeToString sel inputs config_writable (config st)
      (configFile st) in
  set_config c f st.

(** One event handled by the main thread.  A button that is disabled does
    not emit [clicked], and no button does while the Save dialog is open. *)
Definition step (st : State) (i : Input) : State * list Command :=
  match i with
  | clickRecord =>
      if saveDialog st then (st, [])
      else if btnRecord_enabled st then onToggleRecord st else (st, [])
  | clickPlay r =>
      if saveDialog st then (st, [])
      else if btnPlay_enabled st then onTogglePlay r st else (st, [])
  | clickSave =>
      if saveDialog st then (st, [])
      else if btnSave_enabled st then (on_btnSave_opens st, [])
      else (st, [])
  | getSaveFileName path dir writable =>
      if saveDialog st then on_btnSave_answered path dir writable st
      else (st, [])
  | clickLoad path dir file =>
      if saveDialog st then (st, []) else on_btnLoad path dir file st
  | clickHotkeys sel inputs =>
      if saveDialog st then (st, []) else (on_btnHotkey sel inputs st, [])
  | invoke Hotkey.onToggleRecord _ => onToggleRecord st
  | invoke Hotkey.onTogglePlay r => onTogglePlay r st
  | invoke Hotkey.onStopPlaybackHotkey _ => onStopPlaybackHotkey st
  | recorder_status s => (set_status s st, [])
  | recorder_finishedRecording summary events =>
      (on_finishedRecording summary events st, [])
  | player_status s => (on_player_status s st, [])
  end.

(** The events handled one after the other, with the commands given. *)
Fixpoint run (st : State) (inputs : list Input) : State * list Command :=
  match inputs with
  | [] => (st, [])
  | i :: rest =>
      let '(st1, cmds1) := step st i in
      let '(st2, cmds2) := run st1 rest in
      (st2, cmds1 ++ cmds2)
  end.

End Handlers.

(** The queued invocations the hotkey handler makes for a down-set. *)
Definition invocations (c : Config) (downset : list Z) (r : Readings)
    : list Input :=
  map (fun slot => invoke slot r) (Hotkey.on_currentDownSetChanged c downset).

(** Every key a capture dialog of these inputs is handed is an
    [unsigned int]. *)
Definition dialogs_unsigned (inputs : list Input) : Prop :=
  forall sel dlg, clickHotkeys sel dlg ∈ inputs -> captures_unsigned dlg.

(** No player status among the inputs reports the end of a replay. *)
Definition none_finished (inputs : list Input) : Prop :=
  forall s, player_status s ∈ inputs ->
    contains_CaseInsensitive s "finished" = false
    /\ contains_CaseInsensitive s "Stopped" = false.

(** What stays true of the window whatever it handles, when the
    configuration file can be written. *)
Definition window_inv (homePath : string) (st : State) : Prop :=
  keys_unsigned (config st)
  /\ in_sync homePath (config st) (configFile st)
  /\ (btnSave_enabled st = true -> recorded st <> []).


End Window.

(** ** Key labels *)
Module KeyNames.

Definition friendlyMap : list (string * string) :=
  [ ("Shift_L", "Shift"); ("Shift_R", "Shift");
    ("Control_L", "Ctrl"); ("Control_R", "Ctrl");
    ("Alt_L", "Alt"); ("Alt_R", "Alt");
    ("Super_L", "Super"); ("Super_R", "Super");
    ("ISO_Level3_Shift", "AltGr"); ("Meta_L", "Meta"); ("Meta_R", "Meta");
    ("Return", "Enter"); ("BackSpace", "Backspace"); ("Escape", "Esc");
    ("space", "Space"); ("Tab", "Tab");
    ("Left", "Left"); ("Right", "Right"); ("Up", "Up"); ("Down", "Down");
    ("Prior", "PgUp"); ("Next", "PgDn"); ("Home", "Home"); ("End", "End");
    ("Insert", "Ins"); ("Delete", "Del") ].

(** [std::map::find] on a map built from a list of pairs: the value of the
    first pair with that key. *)
Fixpoint find (s : string) (m : list (string * string)) : option string :=
  match m with
  | [] => None
  | (k, v) :: rest => if bool_decide (k = s) then Some v else find s rest
  end.

(** [QString::left(n)]. *)
Definition left (n : nat) (s : string) : string := String.substring 0 n s.

(** [friendlyKeyName]; [None] is the null pointer. *)
Definition friendlyKeyName (ksname : option string) : string :=
  match ksname with
  | None => ""
  | Some s =>
      match find s friendlyMap with
      | Some name => name
      | None =>
          if Window.endsWith s "_L" || Window.endsWith s "_R" then
            let base := left (String.length s - 2) s in
            match find base friendlyMap with
            | Some name => name
            | None => base
            end
          else s
      end
  end.

(** What the X server and XKB answer to [keycodeToString]: whether the
    display opens, the keyboard state if [XkbGetState] succeeds (group and
    modifier mask), [XkbKeycodeToKeysym] and [XKeysymToString]. *)
Record Xkb := {
  display_opens : bool;
  XkbGetState : option (Z * Z);
  XkbKeycodeToKeysym : Z -> Z -> Z -> Z;
  XKeysymToString : Z -> option string
}.

Definition NoSymbol : Z := 0%Z.
Definition ShiftMask : Z := 1%Z.
Definition Mod5Mask : Z := 128%Z.

(** ["Key%1"] with the keycode in decimal. *)
Definition fallback (keycode : Z) : string :=
  "Key" +:+ NilEmpty.string_of_uint (N.to_uint (Z.to_N keycode)).

(** [keycodeToString]; [has_dpy] tells whether the caller passed a
    display. *)
Definition keycodeToString (x : Xkb) (has_dpy : bool) (keycode : Z)
    : string :=
  if negb has_dpy && negb (display_opens x) then fallback keycode
  else
    let '(group, level) :=
      match XkbGetState x with
      | Some (group, mods) =>
          let level :=
            if bool_decide (Z.land mods ShiftMask = 0%Z) then 0%Z else 1%Z in
          let level :=
            if bool_decide (Z.land mods Mod5Mask = 0%Z) then level else 2%Z in
          (Z.land group 255, level)
      | None => (0%Z, 0%Z)
      end in
    let kc := (keycode mod 256)%Z in
    let ks := XkbKeycodeToKeysym x kc group level in
    let ks :=
      fold_left
        (fun ks lv =>
           if bool_decide (ks = NoSymbol) then XkbKeycodeToKeysym x kc group lv
           else ks)
        [0; 1; 2]%Z ks in
    let out := friendlyKeyName (XKeysymToString x ks) in
    if bool_decide (out = "") then fallback keycode else out.

End KeyNames.

(** ** Further sample inputs *)
Module Examples.

(** The pointer at ([px], [py]) over the two monitors of
    [Sample.layout_two]. *)
Definition pointer_at (now px py : Z) : Recorder.Observed :=
  {| Recorder.obs_now := now; Recorder.obs_px := px; Recorder.obs_py := py;
     Recorder.obs_layout := Sample.layout_two |}.

Definition key_notice (now code : Z) : Recorder.RawEvent :=
  {| Recorder.evtype := Recorder.XI_RawKeyPress; Recorder.detail := code;
     Recorder.seen := pointer_at now 100 200 |}.

(** The three controls as the window shows them at first. *)
Definition readings : Window.Readings :=
  {| Window.spinSpeed := Double.of_Z 1; Window.spinLoops := 1;
     Window.chkInfinite := false |}.

(** A window that holds a log of one key press and the playback combo
    Ctrl + Shift + a, with no thread at work. *)
Definition window_with_log : Window.State :=
  {| Window.activeRecorder := false; Window.activePlayer := None;
     Window.recorded := [Sample.key_press 0 38];
     Window.config := Sample.config_full_playback;
     Window.configFile := Settings.Missing;
     Window.status := "Loaded 1 events";
     Window.btnRecord_text := "Record"; Window.btnRecord_enabled := true;
     Window.btnPlay_text := "Play"; Window.btnPlay_enabled := true;
     Window.btnSave_enabled := true; Window.saveDialog := false |}.

(** The same window while recording. *)
Definition window_recording : Window.State :=
  (Window.onToggleRecord window_with_log).1.

(** An X server in which keycode 50 is the left Shift key. *)
Definition xkb : KeyNames.Xkb :=
  {| KeyNames.display_opens := true;
     KeyNames.XkbGetState := Some (0, 0)%Z;
     KeyNames.XkbKeycodeToKeysym :=
       fun keycode _ _ => if (keycode =? 50)%Z then 65505%Z else 0%Z;
     KeyNames.XKeysymToString :=
       fun ks => if (ks =? 65505)%Z then Some "Shift_L" else None |}.

End Examples.

(** * Properties *)

(** ** Integers and doubles *)

Lemma to_int_id (z : Z) : Int.is_int z = true -> Int.to_int z = z.
Proof.
  unfold Int.is_int, Int.to_int, Int.wrap_signed. intros H.
  apply andb_true_iff in H as [H1 H2].
  apply Z.leb_le in H1. apply Z.ltb_lt in H2.
  rewrite Z.mod_small; lia.
Qed.

Lemma to_int64_id (z : Z) : Int.is_int64 z = true -> Int.to_int64 z = z.
Proof.
  unfold Int.is_int64, Int.to_int64, Int.wrap_signed. intros H.
  apply andb_true_iff in H as [H1 H2].
  apply Z.leb_le in H1. apply Z.ltb_lt in H2.
  rewrite Z.mod_small; lia.
Qed.

Lemma to_int_is_int (z : Z) : Int.is_int (Int.to_int z) = true.
Proof.
  unfold Int.is_int, Int.to_int, Int.wrap_signed.
  pose proof (Z.mod_pos_bound (z + 2 ^ (32 - 1)) (2 ^ 32)) as H.
  apply andb_true_iff. split; [apply Z.leb_le | apply Z.ltb_lt]; lia.
Qed.

Lemma to_int64_is_int64 (z : Z) : Int.is_int64 (Int.to_int64 z) = true.
Proof.
  unfold Int.is_int64, Int.to_int64, Int.wrap_signed.
  pose proof (Z.mod_pos_bound (z + 2 ^ (64 - 1)) (2 ^ 64)) as H.
  apply andb_true_iff. split; [apply Z.leb_le | apply Z.ltb_lt]; lia.
Qed.

(** [unsigned -> int -> unsigned] gives the keycode back. *)
Lemma to_uint_to_int (z : Z) :
  Int.is_uint z = true -> Int.to_uint (Int.to_int z) = z.
Proof.
  unfold Int.is_uint, Int.to_uint, Int.to_int, Int.wrap_signed. intros H.
  apply andb_true_iff in H as [H1 H2].
  apply Z.leb_le in H1. apply Z.ltb_lt in H2.
  change (2 ^ (32 - 1))%Z with 2147483648%Z. change (2 ^ 32)%Z with 4294967296%Z in *.
  destruct (Z.lt_ge_cases z 2147483648).
  - rewrite (Z.mod_small (z + 2147483648)) by lia. rewrite Z.mod_small; lia.
  - replace (z + 2147483648)%Z with ((z - 2147483648) + 1 * 4294967296)%Z by lia.
    rewrite Z.mod_add by lia. rewrite (Z.mod_small (z - 2147483648)) by lia.
    replace (z - 2147483648 - 2147483648)%Z with (z + (-1) * 4294967296)%Z by lia.
    rewrite Z.mod_add by lia. rewrite Z.mod_small; lia.
Qed.

Lemma digits2_pos_size (m : positive) : digits2_pos m = Pos.size m.
Proof. induction m as [m IH|m IH|]; simpl; congruence. Qed.

Lemma iter_xO_mul (m k : positive) :
  Z.pos (Pos.iter xO m k) = (Z.pos m * 2 ^ Z.pos k)%Z.
Proof.
  revert m. induction k as [|k IH] using Pos.peano_ind; intros m.
  - simpl. lia.
  - rewrite Pos.iter_succ, Pos2Z.inj_succ, Z.pow_succ_r by lia.
    change (Z.pos (Pos.iter xO m k)~0) with (2 * Z.pos (Pos.iter xO m k))%Z.
    rewrite IH. ring.
Qed.

Lemma iter_xO_digits (m k : positive) :
  Z.pos (digits2_pos (Pos.iter xO m k)) = (Z.pos (digits2_pos m) + Z.pos k)%Z.
Proof.
  induction k as [|k IH] using Pos.peano_ind.
  - simpl. lia.
  - rewrite Pos.iter_succ. simpl digits2_pos. lia.
Qed.

Lemma binary_round_aux_canonical (s : bool) (mz : positive) (ez : Z) :
  Z.pos (digits2_pos mz) = 53%Z -> (-52 <= ez <= 0)%Z ->
  binary_round_aux 53 1024 s (Z.pos mz) ez loc_Exact = S754_finite s mz ez.
Proof.
  intros Hd He. unfold binary_round_aux.
  assert (Hs : shr_fexp 53 1024 (Z.pos mz) ez loc_Exact
               = ({| shr_m := Z.pos mz; shr_r := false; shr_s := false |}, ez)).
  { unfold shr_fexp, Zdigits2. rewrite Hd. unfold fexp, emin.
    replace (Z.max (53 + ez - 53) (3 - 1024 - 53) - ez)%Z with 0%Z by lia.
    reflexivity. }
  rewrite Hs. cbn [shr_m loc_of_shr_record round_nearest_even].
  rewrite Hs. cbn [shr_m].
  destruct (Z.leb_spec ez (1024 - 53)); [reflexivity | lia].
Qed.

Lemma binary_round_small (s : bool) (m : positive) :
  (Z.pos m < 2 ^ 53)%Z ->
  exists mz k, (0 <= k <= 52)%Z /\ Z.pos mz = (Z.pos m * 2 ^ k)%Z /\
    binary_round 53 1024 s m 0 = S754_finite s mz (- k).
Proof.
  intros Hm.
  assert (Hd : (1 <= Z.pos (digits2_pos m) <= 53)%Z).
  { split; [lia|]. rewrite digits2_pos_size.
    destruct (Z.le_gt_cases (Z.pos (Pos.size m)) 53) as [|Hgt]; [done|].
    exfalso. pose proof (Pos.size_le m) as Hle.
    assert (2 ^ 54 <= Z.pos (2 ^ Pos.size m))%Z.
    { rewrite Pos2Z.inj_pow. apply Z.pow_le_mono_r; lia. }
    assert (Z.pos (2 ^ Pos.size m) <= Z.pos m~0)%Z by (apply Pos2Z.pos_le_pos; exact Hle).
    lia. }
  unfold binary_round, fexp, emin.
  replace (Z.max (Z.pos (digits2_pos m) + 0 - 53) (3 - 1024 - 53))%Z
    with (Z.pos (digits2_pos m) - 53)%Z by lia.
  unfold shl_align.
  destruct (Z.pos (digits2_pos m) - 53 - 0)%Z as [|p|p] eqn:Hk; [| lia |].
  - exists m, 0%Z. split; [lia|]. split; [lia|].
    replace (Z.pos (digits2_pos m) - 53)%Z with 0%Z by lia.
    apply binary_round_aux_canonical; lia.
  - exists (Pos.iter xO m p), (Z.pos p). split; [lia|]. split; [apply iter_xO_mul|].
    replace (Z.pos (digits2_pos m) - 53)%Z with (- Z.pos p)%Z by lia.
    apply binary_round_aux_canonical; [rewrite iter_xO_digits|]; lia.
Qed.

Lemma shiftl_back (a k : Z) :
  (0 <= k)%Z -> Z.shiftl (a * 2 ^ k) (- k) = a.
Proof.
  intros Hk. rewrite Z.shiftl_opp_r, Z.shiftr_div_pow2 by lia.
  apply Z.div_mul. apply Z.pow_nonzero; lia.
Qed.

Lemma finite_exact (s : bool) (m mz : positive) (k : Z) :
  (0 <= k)%Z -> Z.pos mz = (Z.pos m * 2 ^ k)%Z ->
  Double.trunc (S754_finite s mz (- k)) = Some (if s then Z.neg m else Z.pos m)
  /\ Double.is_integral (S754_finite s mz (- k)) = true.
Proof.
  intros Hk Hmz. unfold Double.trunc, Double.is_integral.
  rewrite Hmz, shiftl_back by lia. split.
  - by destruct s.
  - rewrite Z.opp_involutive, Z.shiftl_mul_pow2 by lia. apply Z.eqb_refl.
Qed.

Lemma of_Z_exact (z : Z) :
  (- 2 ^ 53 < z < 2 ^ 53)%Z ->
  Double.trunc (Double.of_Z z) = Some z /\ Double.is_integral (Double.of_Z z) = true.
Proof.
  intros Hz. unfold Double.of_Z, Double.prec, Double.emax, binary_normalize.
  destruct z as [|m|m]; [done| |].
  - destruct (binary_round_small false m) as (mz & k & Hk & Hmz & ->); [lia|].
    apply (finite_exact false m mz k); lia.
  - destruct (binary_round_small true m) as (mz & k & Hk & Hmz & ->); [lia|].
    apply (finite_exact true m mz k); lia.
Qed.

(** ** Capture *)

Section Capture.

Import Recorder.

Variable order : gset Z -> list Z.
Hypothesis order_perm : forall s, order s ≡ₚ elements s.
Variable start : Z.

Lemma pairing_snoc (flags : list bool) (x : bool) :
  pairing (flags ++ [x]) = flag_step (pairing flags) x.
Proof. unfold pairing. by rewrite fold_left_app. Qed.

Lemma button_flags_app (b : Z) (l1 l2 : list Event) :
  button_flags b (l1 ++ l2) = button_flags b l1 ++ button_flags b l2.
Proof. unfold button_flags. by rewrite filter_app, map_app. Qed.

Lemma button_flags_button (b : Z) (t : Z) (o : Observed) (d : Z) (p : bool) :
  button_flags b [mouse_event MouseButton t o d p]
  = if bool_decide (d = b) then [p] else [].
Proof.
  unfold button_flags. rewrite filter_cons, filter_nil. cbn [ev_type ev_button mouse_event].
  case_bool_decide; case_decide; naive_solver.
Qed.

Lemma button_flags_move (b : Z) (t : Z) (o : Observed) (d : Z) (p : bool) :
  button_flags b [mouse_event MouseMove t o d p] = [].
Proof.
  unfold button_flags. rewrite filter_cons, filter_nil. cbn [ev_type mouse_event].
  case_decide; naive_solver.
Qed.

Lemma button_flags_key (b : Z) (t code : Z) (p : bool) :
  button_flags b [key_event t code p] = [].
Proof.
  unfold button_flags. rewrite filter_cons, filter_nil. cbn [ev_type key_event].
  case_decide; naive_solver.
Qed.

Lemma handle_tracked (st : State) (ev : RawEvent) :
  alternating (downButtons st) [ev] = true ->
  tracked st -> tracked (handle start st ev).
Proof.
  unfold tracked, handle. intros Halt Htr b. cbn [alternating] in Halt.
  destruct (evtype ev).
  - destruct (_ || _); [|done]. cbn [events downButtons].
    by rewrite button_flags_app, button_flags_move, app_nil_r.
  - apply andb_true_iff in Halt as [Hd%bool_decide_eq_true _].
    cbn [push_back events downButtons].
    rewrite button_flags_app, button_flags_button.
    case_bool_decide as Hb.
    + subst b. rewrite pairing_snoc, Htr.
      rewrite bool_decide_eq_false_2 by done. cbn.
      f_equal. symmetry. apply bool_decide_eq_true_2. set_solver.
    + rewrite app_nil_r, Htr. f_equal. apply bool_decide_ext. set_solver.
  - apply andb_true_iff in Halt as [Hd%bool_decide_eq_true _].
    cbn [push_back events downButtons].
    rewrite button_flags_app, button_flags_button.
    case_bool_decide as Hb.
    + subst b. rewrite pairing_snoc, Htr.
      rewrite bool_decide_eq_true_2 by done. cbn.
      f_equal. symmetry. apply bool_decide_eq_false_2. set_solver.
    + rewrite app_nil_r, Htr. f_equal. apply bool_decide_ext. set_solver.
  - cbn [push_back events downButtons].
    by rewrite button_flags_app, button_flags_key, app_nil_r.
  - cbn [push_back events downButtons].
    by rewrite button_flags_app, button_flags_key, app_nil_r.
  - done.
Qed.

Lemma handle_downButtons (st : State) (ev : RawEvent) :
  downButtons (handle start st ev)
  = match evtype ev with
    | XI_RawButtonPress => {[ detail ev ]} ∪ downButtons st
    | XI_RawButtonRelease => downButtons st ∖ {[ detail ev ]}
    | _ => downButtons st
    end.
Proof.
  unfold handle. destruct (evtype ev); try done.
  by destruct (_ || _).
Qed.

Lemma fold_tracked (raw : list RawEvent) :
  forall st, alternating (downButtons st) raw = true ->
  tracked st -> tracked (fold_left (handle start) raw st).
Proof.
  induction raw as [|ev raw IH]; intros st Halt Htr; [done|].
  cbn [fold_left]. apply IH.
  - rewrite handle_downButtons. cbn [alternating] in Halt.
    destruct (evtype ev); try done;
      by apply andb_true_iff in Halt as [_ ?].
  - apply handle_tracked; [|done]. cbn [alternating] in *.
    destruct (evtype ev); try done;
      apply andb_true_iff in Halt as [-> _]; done.
Qed.

Lemma synthesized_pairs (t : Z) (stop : Observed) (held : list Z) :
  NoDup held ->
  forall log,
  (forall b, pairing (button_flags b log) = Some (bool_decide (b ∈ held))) ->
  forall b,
  pairing (button_flags b
             (log ++ map (fun b => mouse_event MouseButton t stop b false) held))
  = Some false.
Proof.
  induction 1 as [|b0 held Hnotin Hnd IH]; intros log Hlog b.
  - cbn [map]. by rewrite app_nil_r, Hlog.
  - cbn [map]. rewrite cons_middle, (assoc_L (++)). apply IH. intros b'.
    rewrite button_flags_app, button_flags_button.
    case_bool_decide as Hb.
    + subst b'. rewrite pairing_snoc, Hlog.
      rewrite bool_decide_eq_true_2 by set_solver. cbn.
      f_equal. symmetry. by apply bool_decide_eq_false_2.
    + rewrite app_nil_r, Hlog. f_equal. apply bool_decide_ext. set_solver.
Qed.

(** Flags that pair up are presses and releases in turn. *)
Lemma pairing_shape_aux (n : nat) :
  forall flags, (length flags <= n)%nat -> pairing flags = Some false ->
  exists k, flags = concat (replicate k [true; false]).
Proof.
  assert (Hnone : forall l, fold_left flag_step l None = None).
  { induction l; [done|]. done. }
  induction n as [n IH] using lt_wf_ind. intros flags Hlen Hp.
  destruct flags as [|x [|y flags]].
  - by exists 0%nat.
  - destruct x; discriminate.
  - unfold pairing in Hp. cbn [fold_left] in Hp.
    destruct x; cbn in Hp; [|by rewrite Hnone in Hp].
    destruct y; cbn in Hp; [by rewrite Hnone in Hp|].
    cbn [length] in Hlen.
    destruct (IH (length flags) ltac:(lia) flags ltac:(lia) Hp) as [k ->].
    by exists (S k).
Qed.

Lemma pairing_shape (flags : list bool) :
  pairing flags = Some false ->
  exists k, flags = concat (replicate k [true; false]).
Proof. by apply (pairing_shape_aux (length flags)). Qed.

(** C1 (as amended): when the presses and releases of each button alternate
    in the raw stream (a press for a button that is up, a release for one
    that is down), the log of a completed run holds, for every button that
    occurs in it, presses and releases in turn, a positive and even number
    of events.  The log is what the loop recorded followed by one release
    for each button still held, each stamped with the elapsed time at stop
    and the pointer position queried then. *)
Theorem capture_pairs_buttons (raw : list RawEvent) (stop : Observed) :
  alternating ∅ raw = true ->
  let st := fold_left (handle start) raw initial in
  let t_stop := Int.sub64 (obs_now stop) start in
  let log := (run BackendReady order start raw stop).2 in
  pairs_up log
  /\ (forall b, Nat.Even (length (button_flags b log)))
  /\ log = events st
           ++ map (fun b => mouse_event MouseButton t_stop stop b false)
                  (order (downButtons st))
  /\ (forall b, b ∈ order (downButtons st) <-> b ∈ downButtons st)
  /\ NoDup (order (downButtons st))
  /\ (forall b,
        let e := mouse_event MouseButton t_stop stop b false in
        ev_type e = MouseButton /\ ev_button e = b /\ ev_pressed e = false
        /\ ev_ms_since_start e = t_stop
        /\ ev_x e = obs_px stop /\ ev_y e = obs_py stop).
Proof.
  intros Halt st t_stop log.
  assert (Hin : forall b, b ∈ order (downButtons st) <-> b ∈ downButtons st).
  { intros b. rewrite (order_perm (downButtons st)). apply elem_of_elements. }
  assert (Hnd : NoDup (order (downButtons st))).
  { rewrite (order_perm (downButtons st)). apply NoDup_elements. }
  assert (Hlog : log = events st
           ++ map (fun b => mouse_event MouseButton t_stop stop b false)
                  (order (downButtons st))) by reflexivity.
  assert (Hshape : forall b,
            exists k, button_flags b log = concat (replicate k [true; false])).
  { intros b. apply pairing_shape.
    rewrite Hlog. apply synthesized_pairs; [done|].
    intros b'. rewrite (fold_tracked raw initial Halt).
    - f_equal. apply bool_decide_ext. by rewrite Hin.
    - intros b''. reflexivity. }
  split; [|split; [|split; [exact Hlog|]; split; [exact Hin|];
                    split; [exact Hnd|]; intros b; by repeat split]].
  - intros b (e & He & Hty & Hbt). destruct (Hshape b) as [k Hk].
    exists k. split; [|exact Hk]. destruct k as [|k]; [|lia].
    exfalso. cbn [replicate concat] in Hk. unfold button_flags in Hk.
    apply fmap_nil_inv in Hk.
    assert (e ∈ filter (fun e => ev_type e = MouseButton /\ ev_button e = b) log)
      as Hf by (apply list_elem_of_filter; done).
    rewrite Hk in Hf. by apply elem_of_nil in Hf.
  - intros b. destruct (Hshape b) as [k ->]. exists k.
    clear. induction k as [|k IH]; [done|].
    cbn [replicate concat]. rewrite length_app, IH. cbn. lia.
Qed.

End Capture.

Lemma capture_pairs_buttons_witness :
  let raw := [Sample.button_press 1010 1; Sample.button_release 1090 1;
              Sample.button_press 1200 3] in
  Recorder.alternating ∅ raw = true
  /\ Recorder.pairs_up
       (Recorder.run Recorder.BackendReady elements 1000 raw
          (Sample.observed 1500)).2.
Proof.
  intros raw.
  assert (Recorder.alternating ∅ raw = true) as Halt by (vm_compute; reflexivity).
  split; [exact Halt|].
  exact (proj1 (capture_pairs_buttons elements (fun s => reflexivity _) 1000
                  raw (Sample.observed 1500) Halt)).
Defined.

(** C1 as stated fails: two press notifications for button 1 with no release
    between them (two devices, say) match the premise, no release being
    left without an earlier press, yet the log holds three events for
    button 1: press, press and the one release made at stop. *)
Lemma double_press_leaves_odd_count :
  let raw := [Sample.button_press 1010 1; Sample.button_press 1020 1] in
  let log := (Recorder.run Recorder.BackendReady elements 1000 raw
                (Sample.observed 1500)).2 in
  Recorder.releases_matched [] raw = true
  /\ Recorder.button_flags 1 log = [true; true; false]
  /\ ~ Recorder.pairs_up log.
Proof.
  intros raw log.
  assert (Recorder.button_flags 1 log = [true; true; false]) as Hflags
    by (vm_compute; reflexivity).
  split; [vm_compute; reflexivity|]. split; [exact Hflags|].
  intros H. destruct (H 1%Z) as (k & _ & Hk).
  - eexists. split; [vm_compute; apply list_elem_of_here|]. done.
  - rewrite Hflags in Hk. destruct k as [|[|k]]; discriminate.
Qed.

(** ** Replay *)

Section Replay.

Import Player.



Lemma resolve_found (dpy : Layout) (e : Event) :
  ev_monitor e <> "" ->
  mi_name (Monitor.findMonitorByName dpy (ev_monitor e)) <> "" ->
  resolve dpy e
  = (Int.add (mi_x (Monitor.findMonitorByName dpy (ev_monitor e))) (ev_relx e),
     Int.add (mi_y (Monitor.findMonitorByName dpy (ev_monitor e))) (ev_rely e),
     true).
Proof.
  intros H1 H2. unfold resolve.
  by rewrite !bool_decide_eq_false_2.
Qed.

Lemma resolve_fallback (dpy : Layout) (e : Event) :
  ev_monitor e = "" \/
  mi_name (Monitor.findMonitorByName dpy (ev_monitor e)) = "" ->
  resolve dpy e = (ev_x e, ev_y e, false).
Proof.
  intros H. unfold resolve. case_bool_decide; [done|].
  destruct H as [H|H]; [done|]. by rewrite bool_decide_eq_true_2.
Qed.

Lemma run_signals (env : Env) (speed : spec_float) (loops : Z)
    (e : Event) (rest : list Event) (now : Z) (lat : list N) :
  signals (run true env speed loops (e :: rest) now lat)
  = [status_playing loops speed; status "Playback finished."].
Proof.
  unfold run.
  by destruct (exec safety_release _) as [calls w2].
Qed.


End Replay.

Section ReplayLoop.

Import Player.

Variable env : Env.
Variable c0 : Z.
Variable speed : spec_float.
Variable events : list Event.

Lemma tick_clock (w : World) : (clock w <= clock (tick w))%Z.
Proof. unfold tick. cbn [clock]. lia. Qed.

Lemma sleep_clock (ms : Z) (w : World) :
  (clock w + Z.max 0 ms <= clock (sleep ms w))%Z.
Proof. unfold sleep, tick, advance. cbn [clock latency]. lia. Qed.

(** The clock never runs backwards, and each call carries a clock reading
    taken after the sequence was entered. *)
Lemma exec_spec (acts : list Act) (w : World) :
  (clock w <= clock (exec acts w).2)%Z
  /\ Forall (fun c => (clock w <= c.1)%Z) (exec acts w).1
  /\ fired (exec acts w).2 = fired w.
Proof.
  revert w. induction acts as [|[c|ms] acts IH]; intros w; cbn [exec].
  - by repeat split.
  - specialize (IH (tick w)). pose proof (tick_clock w).
    destruct (exec acts (tick w)) as [calls w']. cbn [fst snd] in *.
    destruct IH as (Hc & Hf & Hfired).
    split; [lia|]. split; [|done].
    constructor; [cbn; lia|].
    eapply Forall_impl; [exact Hf|]. cbn. intros; lia.
  - specialize (IH (sleep ms w)). pose proof (sleep_clock ms w).
    destruct IH as (Hc & Hf & Hfired).
    split; [lia|]. split; [|done].
    eapply Forall_impl; [exact Hf|]. cbn. intros; lia.
Qed.

Lemma wait_until_fired (target : Z) (w : World) :
  fired (wait_until target w) = fired w.
Proof. unfold wait_until. by destruct (_ >? _)%Z. Qed.

Lemma wait_until_clock (target : Z) (w : World) :
  (clock w <= clock (wait_until target w))%Z.
Proof.
  unfold wait_until. destruct (_ >? _)%Z; [|lia].
  pose proof (sleep_clock
    (Int.sub64 target (clock w) / 1000 * 1000
     + Int.sub64 target (clock w) mod 1000) w). lia.
Qed.

(** The wait ends at or after the target. *)
Lemma wait_until_target (target : Z) (w : World) :
  (0 <= clock w)%Z -> Int.is_int64 target = true ->
  (target <= clock (wait_until target w))%Z.
Proof.
  intros Hw Ht. unfold wait_until.
  destruct (Z.gtb_spec target (clock w)) as [Hgt|Hle]; [|lia].
  assert (Int.sub64 target (clock w) = target - clock w)%Z as ->.
  { apply to_int64_id. unfold Int.is_int64 in *.
    apply andb_true_iff in Ht as [H1 H2].
    apply Z.leb_le in H1. apply Z.ltb_lt in H2.
    apply andb_true_iff. split; [apply Z.leb_le | apply Z.ltb_lt]; lia. }
  assert ((target - clock w) / 1000 * 1000 + (target - clock w) mod 1000
          = target - clock w)%Z as ->.
  { pose proof (Z.div_mod (target - clock w) 1000). lia. }
  pose proof (sleep_clock (target - clock w) w). lia.
Qed.

(** One turn of the inner loop adds one entry, and what that entry says. *)
Lemma turn_spec (k : nat) (start : Z) (i : nat) (e : Event) (w : World) :
  exists f,
    fired (turn env speed events k start i e w) = fired w ++ [f]
    /\ (clock w <= clock (turn env speed events k start i e w))%Z
    /\ f_loop f = k /\ f_index f = i /\ f_event f = e
    /\ f_start f = start /\ f_checked f = clock w
    /\ f_target f = Int.add64 start (offset speed (ev_ms_since_start e))
    /\ (clock w <= f_at f)%Z
    /\ ((0 <= clock w)%Z -> (f_target f <= f_at f)%Z)
    /\ Forall (fun c => (f_at f <= c.1)%Z) (f_calls f).
Proof.
  unfold turn.
  set (target := Int.add64 start (offset speed (ev_ms_since_start e))).
  set (w1 := wait_until target w).
  pose proof (exec_spec (dispatch (layout_at env (clock w1)) events i e) w1)
    as (Hc2 & Hcalls & Hf2).
  destruct (exec _ w1) as [calls w2]. cbn [fst snd] in *.
  pose proof (wait_until_clock target w) as Hc1. fold w1 in Hc1.
  eexists. split.
  { cbn [record_fired fired]. rewrite Hf2. unfold w1.
    by rewrite wait_until_fired. }
  cbn. repeat split; try done; [lia|].
  intros Hw. apply wait_until_target; [done | apply to_int64_is_int64].
Qed.

(** An invariant of the handled entries is kept by a pass when each turn
    adds an entry that has it. *)
Lemma pass_keeps (P : Fired -> Prop) (Q : World -> Prop)
    (k : nat) (start : Z) (rest : list Event) :
  (forall i e w f,
     Q w -> running env c0 w = true ->
     fired (turn env speed events k start i e w) = fired w ++ [f] ->
     f_loop f = k -> f_start f = start -> f_checked f = clock w ->
     f_target f = Int.add64 start (offset speed (ev_ms_since_start (f_event f))) ->
     (clock w <= f_at f)%Z ->
     ((0 <= clock w)%Z -> (f_target f <= f_at f)%Z) ->
     Forall (fun c => (f_at f <= c.1)%Z) (f_calls f) ->
     P f) ->
  (forall i e w, Q w -> Q (turn env speed events k start i e w)) ->
  forall (i : nat) (w : World),
  Q w -> Forall P (fired w) ->
  Q (pass env c0 speed events k start i rest w)
  /\ Forall P (fired (pass env c0 speed events k start i rest w)).
Proof.
  intros HP HQ. induction rest as [|e rest IH]; intros i w Hq Hf; cbn [pass].
  - done.
  - destruct (running env c0 w) eqn:Hrun; [|done].
    destruct (turn_spec k start i e w)
      as (f & Hfired & Hc & Hk & Hi & He & Hs & Hch & Ht & Hat & Hta & Hcalls).
    apply IH; [by apply HQ|].
    rewrite Hfired. apply Forall_app. split; [done|]. constructor; [|done].
    apply (HP i e w f); try done. by rewrite He.
Qed.

Lemma pass_schedule (k : nat) (start : Z) (rest : list Event) :
  forall (i : nat) (w : World),
  (0 <= clock w)%Z /\ (start <= clock w)%Z ->
  Forall (on_schedule speed) (fired w) ->
  ((0 <= clock (pass env c0 speed events k start i rest w))%Z
   /\ (start <= clock (pass env c0 speed events k start i rest w))%Z)
  /\ Forall (on_schedule speed)
            (fired (pass env c0 speed events k start i rest w)).
Proof.
  apply (pass_keeps (on_schedule speed)
           (fun w => (0 <= clock w)%Z /\ (start <= clock w)%Z)).
  - intros i e w f [Hw Hs] _ _ _ Hst _ Ht Hat Hta Hcalls.
    unfold on_schedule. rewrite Hst. repeat split; [done | auto | lia | done].
  - intros i e w [Hw Hs].
    destruct (turn_spec k start i e w) as (_ & _ & Hc & _). lia.
Qed.

Lemma loop_schedule (todo : nat) :
  forall (k : nat) (w : World),
  (0 <= clock w)%Z -> Forall (on_schedule speed) (fired w) ->
  Forall (on_schedule speed) (fired (loop env c0 speed events todo k w)).
Proof.
  induction todo as [|todo IH]; intros k w Hw Hf; cbn [loop]; [done|].
  destruct (running env c0 w); [|done].
  destruct (pass_schedule k (clock w) events 0 w) as [[Hc _] Hp];
    [lia | done |].
  by apply IH.
Qed.

(** Without a stop request the flag stays set. *)
Lemma running_no_stop (w : World) : stop_at env = None -> running env c0 w = true.
Proof. unfold running. by intros ->. Qed.

Lemma pass_all (k : nat) (start : Z) (rest : list Event) :
  stop_at env = None ->
  forall (i : nat) (w : World),
  map (fun f => (f_loop f, f_index f, f_event f))
      (fired (pass env c0 speed events k start i rest w))
  = map (fun f => (f_loop f, f_index f, f_event f)) (fired w)
    ++ imap (fun j e => (k, i + j, e)) rest.
Proof.
  intros Hstop. induction rest as [|e rest IH]; intros i w; cbn [pass].
  - by rewrite app_nil_r.
  - rewrite running_no_stop by done.
    destruct (turn_spec k start i e w)
      as (f & Hfired & _ & Hk & Hi & He & _).
    rewrite IH, Hfired, map_app, <- app_assoc. cbn [map app imap].
    rewrite Hk, Hi, He. f_equal. f_equal; [by rewrite Nat.add_0_r|].
    apply imap_ext. intros j x _. cbn. f_equal. f_equal. lia.
Qed.

Lemma loop_all (todo : nat) :
  stop_at env = None ->
  forall (k : nat) (w : World),
  map (fun f => (f_loop f, f_index f, f_event f))
      (fired (loop env c0 speed events todo k w))
  = map (fun f => (f_loop f, f_index f, f_event f)) (fired w)
    ++ concat (map (whole_pass events) (seq k todo)).
Proof.
  intros Hstop. induction todo as [|todo IH]; intros k w; cbn [loop].
  - by rewrite app_nil_r.
  - rewrite running_no_stop by done.
    rewrite IH, pass_all by done. rewrite <- app_assoc. done.
Qed.

Lemma pass_loop_bound (k : nat) (start : Z) (bound : nat) (rest : list Event) :
  (k < bound)%nat ->
  forall (i : nat) (w : World),
  Forall (fun f => (f_loop f < bound)%nat) (fired w) ->
  Forall (fun f => (f_loop f < bound)%nat)
         (fired (pass env c0 speed events k start i rest w)).
Proof.
  intros Hk i w Hf.
  apply (pass_keeps (fun f => (f_loop f < bound)%nat) (fun _ => True));
    [| done | done | done].
  intros i' e w' f _ _ _ Hl _ _ _ _ _ _. lia.
Qed.

Lemma loop_loop_bound (todo : nat) :
  forall (k : nat) (w : World),
  Forall (fun f => (f_loop f < k + todo)%nat) (fired w) ->
  Forall (fun f => (f_loop f < k + todo)%nat)
         (fired (loop env c0 speed events todo k w)).
Proof.
  induction todo as [|todo IH]; intros k w Hf; cbn [loop]; [done|].
  destruct (running env c0 w); [|done].
  replace (k + S todo)%nat with (S k + todo)%nat in * by lia.
  apply IH. apply pass_loop_bound; [lia | done].
Qed.

(** Once a stop request is in, [running] reads false. *)
Lemma running_before (tau : Z) (w : World) :
  stop_at env = Some tau -> (c0 <= tau)%Z ->
  running env c0 w = true -> (clock w < tau)%Z.
Proof.
  intros Hstop Hc0 Hrun. unfold running in Hrun. rewrite Hstop in Hrun.
  apply negb_true_iff, andb_false_iff in Hrun as [H|H];
    apply Z.leb_gt in H; lia.
Qed.

Lemma pass_checked (tau : Z) (k : nat) (start : Z) (rest : list Event) :
  stop_at env = Some tau -> (c0 <= tau)%Z ->
  forall (i : nat) (w : World),
  Forall (fun f => (f_checked f < tau)%Z) (fired w) ->
  Forall (fun f => (f_checked f < tau)%Z)
         (fired (pass env c0 speed events k start i rest w)).
Proof.
  intros Hstop Hc0 i w Hf.
  apply (pass_keeps (fun f => (f_checked f < tau)%Z) (fun _ => True));
    [| done | done | done].
  intros i' e w' f _ Hrun _ _ _ Hch _ _ _ _. rewrite Hch.
  by apply running_before.
Qed.

Lemma loop_checked (tau : Z) (todo : nat) :
  stop_at env = Some tau -> (c0 <= tau)%Z ->
  forall (k : nat) (w : World),
  Forall (fun f => (f_checked f < tau)%Z) (fired w) ->
  Forall (fun f => (f_checked f < tau)%Z)
         (fired (loop env c0 speed events todo k w)).
Proof.
  intros Hstop Hc0. induction todo as [|todo IH]; intros k w Hf; cbn [loop]; [done|].
  destruct (running env c0 w); [|done].
  apply IH. by apply pass_checked.
Qed.

End ReplayLoop.

Section ReplayCut.

Import Player.

Variable env : Env.
Variable c0 : Z.
Variable speed : spec_float.
Variable events : list Event.

(** What a pass adds was tested no earlier than the pass was entered. *)
Lemma pass_added (env' : Env) (k : nat) (start : Z) (rest : list Event) :
  forall (i : nat) (w : World),
  exists added,
    fired (pass env' c0 speed events k start i rest w) = fired w ++ added
    /\ (clock w <= clock (pass env' c0 speed events k start i rest w))%Z
    /\ Forall (fun f => (clock w <= f_checked f)%Z) added.
Proof.
  induction rest as [|e rest IH]; intros i w; cbn [pass].
  - exists []. by rewrite app_nil_r.
  - destruct (running env' c0 w); [|exists []; by rewrite app_nil_r].
    destruct (turn_spec env' speed events k start i e w)
      as (f & Hf & Hclock & _ & _ & _ & _ & Hch & _).
    destruct (IH (S i) (turn env' speed events k start i e w))
      as (added & Heq & Hc & Hall).
    exists (f :: added). split; [by rewrite Heq, Hf, <- app_assoc|].
    split; [lia|]. constructor; [lia|].
    eapply Forall_impl; [exact Hall|]. cbn. intros; lia.
Qed.

Lemma loop_added (env' : Env) (todo : nat) :
  forall (k : nat) (w : World),
  exists added,
    fired (loop env' c0 speed events todo k w) = fired w ++ added
    /\ Forall (fun f => (clock w <= f_checked f)%Z) added.
Proof.
  induction todo as [|todo IH]; intros k w; cbn [loop].
  - exists []. by rewrite app_nil_r.
  - destruct (running env' c0 w); [|exists []; by rewrite app_nil_r].
    destruct (pass_added env' k (clock w) events 0 w)
      as (added1 & Heq1 & Hc1 & Hall1).
    destruct (IH (S k) (pass env' c0 speed events k (clock w) 0 events w))
      as (added2 & Heq2 & Hall2).
    exists (added1 ++ added2). split; [by rewrite Heq2, Heq1, <- app_assoc|].
    apply Forall_app. split; [done|].
    eapply Forall_impl; [exact Hall2|]. cbn. intros; lia.
Qed.

Lemma halted_by_request (w : World) :
  running env c0 w = false ->
  exists tau, stop_at env = Some tau /\ (c0 <= tau <= clock w)%Z.
Proof.
  unfold running. destruct (stop_at env) as [tau|]; [|done].
  intros [H1 H2]%negb_false_iff%andb_true_iff.
  apply Z.leb_le in H1, H2. by exists tau.
Qed.

Lemma loop_halted (todo k : nat) (w : World) :
  running env c0 w = false -> loop env c0 speed events todo k w = w.
Proof. intros Hrun. destruct todo; cbn [loop]; [done | by rewrite Hrun]. Qed.

(** With a stop request at [tau], a pass is the pass that would have been
    made without it, up to the first test of [running] at or after [tau]. *)
Lemma pass_cancel (tau : Z) (k : nat) (start : Z) (rest : list Event) :
  stop_at env = Some tau ->
  forall (i : nat) (w : World),
  pass env c0 speed events k start i rest w
  = pass (without_stop env) c0 speed events k start i rest w
  \/ (running env c0 (pass env c0 speed events k start i rest w) = false
      /\ exists cut,
           fired (pass (without_stop env) c0 speed events k start i rest w)
           = fired (pass env c0 speed events k start i rest w) ++ cut
           /\ (tau <= clock (pass (without_stop env) c0 speed events k start
                               i rest w))%Z
           /\ Forall (fun f => (tau <= f_checked f)%Z) cut).
Proof.
  intros Hstop. induction rest as [|e rest IH]; intros i w; [by left|].
  cbn [pass]. change (running (without_stop env) c0 w) with true. cbn match.
  destruct (running env c0 w) eqn:Hrun; [apply IH|].
  right. split; [done|].
  destruct (halted_by_request w Hrun) as (tau' & Hstop' & _ & Htau).
  assert (tau' = tau) as -> by congruence.
  destruct (turn_spec (without_stop env) speed events k start i e w)
    as (f & Hf & Hclock & _ & _ & _ & _ & Hch & _).
  destruct (pass_added (without_stop env) k start rest (S i)
              (turn (without_stop env) speed events k start i e w))
    as (added & Heq & Hc & Hall).
  exists (f :: added). split; [by rewrite Heq, Hf, <- app_assoc|].
  split; [lia|]. constructor; [lia|].
  eapply Forall_impl; [exact Hall|]. cbn. intros; lia.
Qed.

Lemma loop_cancel (tau : Z) (todo : nat) :
  stop_at env = Some tau ->
  forall (k : nat) (w : World),
  exists cut,
    fired (loop (without_stop env) c0 speed events todo k w)
    = fired (loop env c0 speed events todo k w) ++ cut
    /\ Forall (fun f => (tau <= f_checked f)%Z) cut.
Proof.
  intros Hstop. induction todo as [|todo IH]; intros k w.
  { exists []. by rewrite app_nil_r. }
  cbn [loop]. change (running (without_stop env) c0 w) with true. cbn match.
  destruct (running env c0 w) eqn:Hrun.
  - destruct (pass_cancel tau k (clock w) events Hstop 0 w)
      as [<- | (Hhalt & cut1 & Heq1 & Hclock1 & Hall1)]; [apply IH|].
    rewrite loop_halted by done.
    destruct (loop_added (without_stop env) todo (S k)
                (pass (without_stop env) c0 speed events k (clock w) 0
                   events w)) as (added & Heq & Hall).
    exists (cut1 ++ added). split; [by rewrite Heq, Heq1, <- app_assoc|].
    apply Forall_app. split; [done|].
    eapply Forall_impl; [exact Hall|]. cbn. intros; lia.
  - destruct (halted_by_request w Hrun) as (tau' & Hstop' & _ & Htau).
    assert (tau' = tau) as -> by congruence.
    destruct (pass_added (without_stop env) k (clock w) events 0 w)
      as (added1 & Heq1 & Hc1 & Hall1).
    destruct (loop_added (without_stop env) todo (S k)
                (pass (without_stop env) c0 speed events k (clock w) 0
                   events w)) as (added & Heq & Hall).
    exists (added1 ++ added). split; [by rewrite Heq, Heq1, <- app_assoc|].
    apply Forall_app. split.
    + eapply Forall_impl; [exact Hall1|]. cbn. intros; lia.
    + eapply Forall_impl; [exact Hall|]. cbn. intros; lia.
Qed.

End ReplayCut.

Section ReplayRun.

Import Player.

Lemma run_handled (env : Env) (speed : spec_float) (loops : Z)
    (events : list Event) (now : Z) (lat : list N) :
  events <> [] ->
  handled (run true env speed loops events now lat)
  = fired (loop env now speed events (Z.to_nat loops) 0 (started now lat)).
Proof.
  intros Hne. unfold run. destruct events as [|e rest]; [done|].
  by destruct (exec safety_release _) as [calls w2].
Qed.

(** C3 (as amended): in every pass, with start instant T0, the target of an
    event with timestamp t is T0 plus the offset [(int64)(t / speed)], the
    double quotient cut to whole milliseconds (in int64 arithmetic, the
    plain sum when it fits); the switch for the event is entered, and each
    of its X calls is made, at or after the target.  At speed 1.0 the
    offsets of t = 0, 100, 300 are 0, 100, 300; at speed 2.0 the offset of
    t = 300 is 150. *)
Theorem replay_schedule (env : Env) (speed : spec_float) (loops : Z)
    (events : list Event) (now : Z) (lat : list N) (f : Fired) :
  (0 <= now)%Z ->
  f ∈ handled (run true env speed loops events now lat) ->
  on_schedule speed f
  /\ (Int.is_int64 (f_start f + offset speed (ev_ms_since_start (f_event f)))
      = true ->
      f_target f
      = (f_start f + offset speed (ev_ms_since_start (f_event f)))%Z)
  /\ offset (Double.of_Z 1) 0 = 0%Z
  /\ offset (Double.of_Z 1) 100 = 100%Z
  /\ offset (Double.of_Z 1) 300 = 300%Z
  /\ offset (Double.of_Z 2) 300 = 150%Z.
Proof.
  intros Hw Hin.
  assert (on_schedule speed f) as Hs.
  { destruct events as [|e rest]; [by apply elem_of_nil in Hin|].
    rewrite run_handled in Hin by done.
    pose proof (loop_schedule env now speed (e :: rest)
                  (Z.to_nat loops) 0 (started now lat) Hw (Forall_nil_2 _))
      as Hall.
    rewrite Forall_forall in Hall. by apply Hall. }
  split; [exact Hs|]. split.
  - intros Hfit. destruct Hs as [-> _]. by apply to_int64_id.
  - repeat split; vm_compute; reflexivity.
Qed.

Lemma whole_pass_events (events : list Event) (k : nat) :
  map snd (whole_pass events k) = events.
Proof.
  unfold whole_pass.
  change (map snd (imap (fun j e => (k, j, e)) events))
    with (snd <$> imap (fun j e => (k, j, e)) events).
  rewrite fmap_imap. rewrite (imap_ext _ (const id)) by done.
  rewrite imap_const. apply list_fmap_id.
Qed.

Lemma passes_events (events : list Event) (n k : nat) :
  map snd (concat (map (whole_pass events) (seq k n)))
  = concat (replicate n events).
Proof.
  revert k. induction n as [|n IH]; intros k; [done|].
  cbn [seq map concat replicate]. rewrite map_app, whole_pass_events.
  by rewrite IH.
Qed.

Lemma passes_length (events : list Event) (n k : nat) :
  length (concat (map (whole_pass events) (seq k n))) = (n * length events)%nat.
Proof.
  revert k. induction n as [|n IH]; intros k; [done|].
  cbn [seq map concat]. rewrite length_app, IH.
  unfold whole_pass. rewrite length_imap. lia.
Qed.

Lemma run_passes (env : Env) (speed : spec_float) (loops : Z)
    (events : list Event) (now : Z) (lat : list N) :
  events <> [] -> stop_at env = None ->
  map (fun f => (f_loop f, f_index f, f_event f))
      (handled (run true env speed loops events now lat))
  = concat (map (whole_pass events) (seq 0 (Z.to_nat loops))).
Proof. intros Hne Hstop. rewrite run_handled by done. by rewrite loop_all. Qed.

Lemma run_length (env : Env) (speed : spec_float) (loops : Z)
    (events : list Event) (now : Z) (lat : list N) :
  events <> [] -> stop_at env = None ->
  length (handled (run true env speed loops events now lat))
  = (Z.to_nat loops * length events)%nat.
Proof.
  intros Hne Hstop.
  rewrite <- (length_map (fun f => (f_loop f, f_index f, f_event f))).
  rewrite run_passes by done. apply passes_length.
Qed.

(** C4 (as amended): when no stop request comes, a non-empty log played
    with [loops] passes is handled as that many whole passes, each in log
    order; with loops = 3 that is the log three times over, 3n events.  The
    "infinite" setting hands the player 2147483647 passes, and without a
    stop request exactly that many are made.  When a stop request comes at
    [tau], not before the start, the replay is the one that would have been
    made without it, cut just before the first event whose [running] test
    comes at or after [tau]: every event tested before [tau] is handled,
    and none that is tested later. *)
Theorem replay_passes (env : Env) (speed : spec_float)
    (events : list Event) (now : Z) (lat : list N) (spinLoops : Z) :
  events <> [] ->
  (stop_at env = None ->
     (forall loops,
        map (fun f => (f_loop f, f_index f, f_event f))
            (handled (run true env speed loops events now lat))
        = concat (map (whole_pass events) (seq 0 (Z.to_nat loops))))
     /\ map f_event (handled (run true env speed 3 events now lat))
        = events ++ events ++ events
     /\ length (handled (run true env speed 3 events now lat))
        = (3 * length events)%nat
     /\ loops_setting true spinLoops = 2147483647%Z
     /\ Z.of_nat (length (handled (run true env speed
                                     (loops_setting true spinLoops)
                                     events now lat)))
        = (2147483647 * Z.of_nat (length events))%Z)
  /\ (forall tau loops,
        stop_at env = Some tau -> (now <= tau)%Z ->
        exists cut,
          handled (run true (without_stop env) speed loops events now lat)
          = handled (run true env speed loops events now lat) ++ cut
          /\ Forall (fun f => (f_checked f < tau)%Z)
                    (handled (run true env speed loops events now lat))
          /\ Forall (fun f => (tau <= f_checked f)%Z) cut).
Proof.
  intros Hne. split.
  - intros Hstop.
    split; [intros loops; by apply run_passes|]. split; [|split; [|split]].
    + replace (map f_event (handled (run true env speed 3 events now lat)))
        with (map snd (map (fun f => (f_loop f, f_index f, f_event f))
                (handled (run true env speed 3 events now lat))))
        by (by rewrite map_map).
      rewrite run_passes, passes_events by done.
      change (Z.to_nat 3) with 3%nat.
      cbn [replicate concat]. by rewrite app_nil_r.
    + by rewrite run_length.
    + reflexivity.
    + rewrite run_length by done. unfold loops_setting.
      rewrite Nat2Z.inj_mul, Z2Nat.id; [reflexivity | done].
  - intros tau loops Hstop Htau. rewrite !run_handled by done.
    destruct (loop_cancel env now speed events tau (Z.to_nat loops) Hstop 0
                (started now lat)) as (cut & Heq & Hcut).
    exists cut. split; [exact Heq|]. split; [|exact Hcut].
    apply loop_checked with (tau := tau); [done | done | constructor].
Qed.

End ReplayRun.


Lemma replay_schedule_witness :
  let log := [Sample.key_press 0 38; Sample.key_press 100 38;
              Sample.key_press 300 38] in
  let f :=
    {| Player.f_loop := 0; Player.f_index := 1;
       Player.f_event := Sample.key_press 100 38;
       Player.f_start := 5000; Player.f_checked := 5003;
       Player.f_target := 5100; Player.f_at := 5104;
       Player.f_calls := [(5104%Z, Player.XTestFakeKeyEvent 38 true);
                          (5104%Z, Player.XFlush)] |} in
  f ∈ Player.handled
        (Player.run true Sample.env_quiet (Double.of_Z 1) 1 log 5000 [1; 2; 4]%N)
  /\ Player.on_schedule (Double.of_Z 1) f.
Proof.
  intros log f.
  assert (f ∈ Player.handled
            (Player.run true Sample.env_quiet (Double.of_Z 1) 1 log 5000
               [1; 2; 4]%N)) as Hin.
  { vm_compute. apply list_elem_of_further, list_elem_of_here. }
  split; [exact Hin|].
  apply (replay_schedule Sample.env_quiet (Double.of_Z 1) 1 log 5000
           [1; 2; 4]%N f); [lia | exact Hin].
Defined.

(** C3 as stated fails: at speed 2.0 an event with t = 1 has target T0, and
    is handled when the clock reads T0, which is before T0 + 1/2. *)
Lemma truncated_offset_fires_early :
  ~ Forall (Player.on_exact_schedule (Double.of_Z 2))
      (Player.handled
         (Player.run true Sample.env_quiet (Double.of_Z 2) 1
            [Sample.key_press 1 38] 5000 [])).
Proof.
  intros H.
  assert (Player.handled
            (Player.run true Sample.env_quiet (Double.of_Z 2) 1
               [Sample.key_press 1 38] 5000 [])
          = [ {| Player.f_loop := 0; Player.f_index := 0;
                 Player.f_event := Sample.key_press 1 38;
                 Player.f_start := 5000; Player.f_checked := 5000;
                 Player.f_target := 5000; Player.f_at := 5000;
                 Player.f_calls := [(5000%Z, Player.XTestFakeKeyEvent 38 true);
                                    (5000%Z, Player.XFlush)] |} ]) as Heq
    by (vm_compute; reflexivity).
  rewrite Heq in H. apply Forall_cons_1 in H as [H _].
  unfold Player.on_exact_schedule in H. vm_compute in H. by apply H.
Qed.

Lemma replay_passes_witness :
  let log := [Sample.key_press 0 38; Sample.key_press 100 38] in
  let stopped := {| Player.layout_at := fun _ => None;
                    Player.stop_at := Some 5050%Z |} in
  map Player.f_event
    (Player.handled
       (Player.run true Sample.env_quiet (Double.of_Z 1) 3 log 5000 []))
  = log ++ log ++ log
  /\ exists cut,
       Player.handled
         (Player.run true (Player.without_stop stopped) (Double.of_Z 1) 3 log
            5000 [])
       = Player.handled
           (Player.run true stopped (Double.of_Z 1) 3 log 5000 []) ++ cut
       /\ Forall (fun f => (Player.f_checked f < 5050)%Z)
                 (Player.handled
                    (Player.run true stopped (Double.of_Z 1) 3 log 5000 []))
       /\ Forall (fun f => (5050 <= Player.f_checked f)%Z) cut.
Proof.
  intros log stopped.
  assert (log <> []) as Hne by discriminate.
  assert (Player.stop_at Sample.env_quiet = None) as Hstop by reflexivity.
  assert (Player.stop_at stopped = Some 5050%Z) as Hreq by reflexivity.
  assert (5000 <= 5050)%Z as Hlate by lia.
  split.
  - exact (proj1 (proj2 (proj1 (replay_passes Sample.env_quiet
                                  (Double.of_Z 1) log 5000 [] 1 Hne)
                           Hstop))).
  - exact (proj2 (replay_passes stopped (Double.of_Z 1) log 5000 [] 1 Hne)
             5050%Z 3%Z Hreq Hlate).
Defined.

(** C4 as stated fails for the "infinite" setting: with that setting and
    no stop request ever made, the player reports "Playback finished."
    after pass number 2147483646, having handled the one event of the log
    2147483647 times. *)
Lemma infinite_setting_ends :
  let out := Player.run true Sample.env_quiet (Double.of_Z 1)
               (Player.loops_setting true 1) [Sample.key_press 0 38]
               5000 [] in
  Player.stop_at Sample.env_quiet = None
  /\ last (Player.signals out) = Some (Player.status "Playback finished.")
  /\ Z.of_nat (length (Player.handled out)) = 2147483647%Z
  /\ Forall (fun f => (Z.of_nat (Player.f_loop f) < 2147483647)%Z)
            (Player.handled out).
Proof.
  intros out. split; [reflexivity|]. split; [|split].
  - unfold out. by rewrite run_signals.
  - unfold out. rewrite run_length by done. unfold Player.loops_setting.
    rewrite Nat2Z.inj_mul, Z2Nat.id; [reflexivity | done].
  - unfold out. rewrite run_handled by done.
    pose proof (loop_loop_bound Sample.env_quiet 5000 (Double.of_Z 1)
                  [Sample.key_press 0 38] (Z.to_nat Int.INT_MAX) 0
                  (Player.started 5000 []) (Forall_nil_2 _)) as Hb.
    eapply Forall_impl; [exact Hb|]. cbn beta. intros f Hf.
    unfold Int.INT_MAX in Hf. lia.
Qed.

(** ** The macro file *)

Section RecqFile.

Import Json Recq.

Lemma toInt_of_int (n : Z) : Int.is_int n = true -> toInt (of_int n) = n.
Proof.
  intros Hn. unfold toInt, of_int.
  assert (- 2 ^ 53 < n < 2 ^ 53)%Z as Hr.
  { unfold Int.is_int in Hn. apply andb_true_iff in Hn as [H1 H2].
    apply Z.leb_le in H1. apply Z.ltb_lt in H2. lia. }
  destruct (of_Z_exact n Hr) as [-> ->]. by rewrite Hn.
Qed.

Lemma to_int64_of_Z (t : Z) :
  (- 2 ^ 53 < t < 2 ^ 53)%Z -> Double.to_int64 (Double.of_Z t) = t.
Proof.
  intros Hr. unfold Double.to_int64.
  destruct (of_Z_exact t Hr) as [-> _].
  assert (Int.is_int64 t = true) as ->; [|done].
  unfold Int.is_int64. apply andb_true_iff.
  split; [apply Z.leb_le | apply Z.ltb_lt]; lia.
Qed.

Ltac lookup_json :=
  unfold value;
  repeat first
    [ rewrite lookup_insert_eq
    | rewrite lookup_insert_ne by done
    | rewrite lookup_empty ].

Lemma load_save_record (e : Event) :
  storable e = true -> load_record (save_record e) = persisted e.
Proof.
  unfold storable. rewrite !andb_true_iff, !Z.ltb_lt.
  intros [[[[Hx Hy] Hb] Hk] Ht].
  unfold load_record, save_record, persisted.
  destruct (ev_type e); cbn [toObject]; lookup_json;
    cbn [toString toDouble toBool of_double];
    repeat (rewrite bool_decide_eq_false_2 by done);
    rewrite bool_decide_eq_true_2 by done;
    rewrite ?toInt_of_int, ?to_int64_of_Z, ?to_uint_to_int
      by auto using to_int_is_int; done.
Qed.

Lemma load_save_document (log : list Event) :
  Forall (fun e => storable e = true) log ->
  loadRecq (snd (saveRecq true log)) = map persisted log.
Proof.
  intros Hlog. cbn [saveRecq snd loadRecq]. unfold save_document, load_document.
  lookup_json. cbn [toArray]. rewrite map_map.
  induction Hlog as [|e log He _ IH]; [done|].
  cbn [map]. by rewrite load_save_record, IH.
Qed.

Lemma persisted_carried (e : Event) :
  carried_equal e (persisted e)
  /\ ev_monitor (persisted e) = "" /\ ev_relx (persisted e) = 0%Z
  /\ ev_rely (persisted e) = 0%Z
  /\ (unused_default e ->
      ev_x (persisted e) = ev_x e /\ ev_y (persisted e) = ev_y e
      /\ ev_button (persisted e) = ev_button e
      /\ ev_pressed (persisted e) = ev_pressed e
      /\ ev_keycode (persisted e) = ev_keycode e).
Proof.
  unfold carried_equal, unused_default, persisted.
  destruct (ev_type e); cbn; intuition congruence.
Qed.

(** C5: a log written by [saveRecq] and read back by [loadRecq] has the same
    length and, event by event, the same type, timestamp and carried
    members (absolute coordinates, button id, press flag, keycode); the
    monitor name comes back empty and the relative coordinates zero.  The
    events hold values of their C++ types and timestamps under 2^53 ms. *)
Theorem recq_round_trip (log : list Event) :
  Forall (fun e => storable e = true) log ->
  let log' := loadRecq (snd (saveRecq true log)) in
  length log' = length log
  /\ Forall2 (fun e e' =>
       carried_equal e e'
       /\ ev_monitor e' = "" /\ ev_relx e' = 0%Z /\ ev_rely e' = 0%Z
       /\ (unused_default e ->
           ev_x e' = ev_x e /\ ev_y e' = ev_y e
           /\ ev_button e' = ev_button e
           /\ ev_pressed e' = ev_pressed e
           /\ ev_keycode e' = ev_keycode e)) log log'.
Proof.
  intros Hlog log'. subst log'. rewrite load_save_document by done.
  split; [apply length_map|].
  clear Hlog. induction log as [|e log IH]; constructor; [|done].
  apply persisted_carried.
Qed.

(** C6: a legacy bare array of records loads to the same log as an object
    that wraps the same records under "events", whatever else (a format
    marker or none) the object holds. *)
Theorem legacy_array_loads_like_wrapped
    (recs : list QJsonValue) (root : gmap string QJsonValue) :
  loadRecq (Some (DocArray recs))
  = loadRecq (Some (DocObject (<["events" := Array recs]> root)))
  /\ loadRecq (Some (DocArray recs))
     = loadRecq (Some (DocObject (<["events" := Array recs]>
                                    (<["format" := String "recq-v1"]> ∅)))).
Proof. split; cbn [loadRecq load_document]; by lookup_json. Qed.

(** Every element of the array gives one event, whatever it holds. *)
Lemma load_document_length (recs : list QJsonValue) :
  length (load_document (DocArray recs)) = length recs.
Proof. apply length_map. Qed.

(** C7 (the code departs from it): a record whose "type" is none of "mm",
    "mb", "key" is not dropped; it is loaded as a pointer move to (0,0) at
    the record's timestamp, in the wrapped and in the legacy form. *)
Theorem unknown_type_record_is_loaded :
  let unknown := Object (<["type" := String "zz"]> (<["t" := of_int 5]> ∅)) in
  let known :=
    Object (<["y" := of_int 20]> (<["x" := of_int 10]>
             (<["type" := String "mm"]> (<["t" := of_int 7]> ∅)))) in
  let junk :=
    {| ev_type := MouseMove; ev_ms_since_start := 5; ev_x := 0; ev_y := 0;
       ev_button := 0; ev_pressed := false; ev_keycode := 0;
       ev_monitor := ""; ev_relx := 0; ev_rely := 0 |} in
  let move :=
    {| ev_type := MouseMove; ev_ms_since_start := 7; ev_x := 10; ev_y := 20;
       ev_button := 0; ev_pressed := false; ev_keycode := 0;
       ev_monitor := ""; ev_relx := 0; ev_rely := 0 |} in
  loadRecq (Some (DocObject (<["events" := Array [unknown; known]]>
                               (<["format" := String "recq-v1"]> ∅))))
  = [junk; move]
  /\ loadRecq (Some (DocArray [unknown; known])) = [junk; move].
Proof. split; vm_compute; reflexivity. Qed.

End RecqFile.

Section LogsHeld.

Import Recorder.

(** Every event the recorder builds leaves the members its variant does not
    use at their defaults, and so does every event the loader builds. *)
Lemma recorded_unused_default (backend : Backend) (order : gset Z -> list Z)
    (start : Z) (raw : list RawEvent) (stop : Observed) :
  Forall Recq.unused_default (run backend order start raw stop).2.
Proof.
  destruct backend; cbn [run snd]; try by constructor.
  unfold finish, synthesized. apply Forall_app. split.
  - assert (Forall Recq.unused_default (events initial)) as Hinit by constructor.
    revert Hinit. generalize initial.
    induction raw as [|ev raw IH]; intros st Hst; [done|].
    cbn [fold_left]. apply IH. unfold handle.
    destruct (evtype ev); cbn [push_back events]; try done;
      [destruct (_ || _); [cbn [events]|done] | | | |];
      (apply Forall_app; split; [done|]; by repeat constructor).
  - apply Forall_forall. intros e (b & -> & _)%list_elem_of_fmap. done.
Qed.

Lemma loaded_unused_default (file : option Json.QJsonDocument) :
  Forall Recq.unused_default (Recq.loadRecq file).
Proof.
  assert (forall v, Recq.unused_default (Recq.load_record v)) as Hrec.
  { intros v. unfold Recq.load_record.
    repeat case_bool_decide; by repeat constructor. }
  assert (forall a, Forall Recq.unused_default (map Recq.load_record a)) as Hall.
  { intros a. apply Forall_forall. intros e (v & -> & _)%list_elem_of_fmap. done. }
  destruct file as [[| |]|]; cbn [Recq.loadRecq Recq.load_document];
    auto; constructor.
Qed.

End LogsHeld.

Lemma recq_round_trip_witness :
  let log :=
    [ {| ev_type := MouseMove; ev_ms_since_start := 0; ev_x := 640; ev_y := 360;
         ev_button := 0; ev_pressed := false; ev_keycode := 0;
         ev_monitor := "HDMI-1"; ev_relx := 640; ev_rely := 360 |};
      {| ev_type := MouseButton; ev_ms_since_start := 120; ev_x := 640;
         ev_y := 360; ev_button := 1; ev_pressed := true; ev_keycode := 0;
         ev_monitor := "HDMI-1"; ev_relx := 640; ev_rely := 360 |};
      {| ev_type := Key; ev_ms_since_start := 250; ev_x := 0; ev_y := 0;
         ev_button := 0; ev_pressed := true; ev_keycode := 38;
         ev_monitor := ""; ev_relx := 0; ev_rely := 0 |} ] in
  Forall (fun e => Recq.storable e = true) log
  /\ length (Recq.loadRecq (snd (Recq.saveRecq true log))) = length log.
Proof.
  intros log.
  assert (Forall (fun e => Recq.storable e = true) log) as H.
  { repeat constructor. }
  split; [exact H|]. exact (proj1 (recq_round_trip log H)).
Defined.

(** ** Hotkeys *)

Section HotkeyTrigger.

Import Hotkey.

Lemma sort_keys_perm (l : list Z) : sort_keys l ≡ₚ l.
Proof. apply merge_sort_Permutation. Qed.

Lemma sort_keys_sorted (l : list Z) : Sorted Z.le (sort_keys l).
Proof. apply (Sorted_merge_sort Z.le). Qed.

Lemma sort_keys_eq_iff (l1 l2 : list Z) : sort_keys l1 = sort_keys l2 <-> l1 ≡ₚ l2.
Proof.
  split.
  - intros H. rewrite <- (sort_keys_perm l1), H. apply sort_keys_perm.
  - intros H. apply (Sorted_unique Z.le); auto using sort_keys_sorted.
    by rewrite !sort_keys_perm.
Qed.

Lemma sort_keys_idem (l : list Z) : sort_keys (sort_keys l) = sort_keys l.
Proof. apply sort_keys_eq_iff, sort_keys_perm. Qed.

Lemma snapshot_perm (s : gset Z) : snapshot s ≡ₚ elements s.
Proof. apply sort_keys_perm. Qed.

Lemma invoked_iff (config : Config) (a : Invoked) (v : list Z) :
  a ∈ on_currentDownSetChanged config v
  <-> triggers (bound_to config a) (sort_keys v) = true.
Proof.
  unfold on_currentDownSetChanged.
  destruct (triggers (startRecording config) _) eqn:E1,
           (triggers (startPlayback config) _) eqn:E2,
           (triggers (stopPlayback config) _) eqn:E3;
    destruct a; cbn [bound_to]; rewrite ?E1, ?E2, ?E3; set_solver.
Qed.

Lemma triggers_iff (combo : HotkeyCombo) (s : list Z) :
  triggers combo s = true <-> keys combo <> [] /\ sort_keys (keys combo) = s.
Proof.
  unfold triggers. rewrite andb_true_iff, negb_true_iff.
  rewrite bool_decide_eq_false, bool_decide_eq_true. done.
Qed.

Lemma final_set_presses (s : gset Z) (presses : list Z) :
  final_set s (map XI_RawKeyPress presses)
  = list_to_set (map Int.to_uint presses) ∪ s.
Proof.
  revert s. induction presses as [|d l IH]; intros s; cbn.
  - set_solver.
  - rewrite IH. set_solver.
Qed.

(** C8: the slot of a combo is invoked exactly when the combo is not empty
    and its sorted keys equal the sorted set of keys that are down.  In that
    case the combo's key set is the down set; for a combo without repeated
    key the converse holds.  It is not invoked while the down set is a
    proper subset of the combo's keys, nor while it is a proper superset of
    them; the order in which the combo is stored and the order in which the
    keys went down do not matter. *)
Theorem hotkey_exact_set (config : Config) (a : Invoked) (downSet : gset Z) :
  let combo := bound_to config a in
  let invoked := a ∈ on_currentDownSetChanged config (snapshot downSet) in
  (invoked <-> keys combo <> [] /\ sort_keys (keys combo) = snapshot downSet)
  /\ (invoked -> list_to_set (keys combo) = downSet)
  /\ (keys combo <> [] -> NoDup (keys combo) ->
      list_to_set (keys combo) = downSet -> invoked)
  /\ (downSet ⊂ list_to_set (keys combo) -> ~ invoked)
  /\ (list_to_set (keys combo) ⊂ downSet -> ~ invoked)
  /\ (forall config',
        keys (bound_to config' a) ≡ₚ keys combo ->
        a ∈ on_currentDownSetChanged config' (snapshot downSet) <-> invoked)
  /\ (forall presses presses' : list Z,
        presses ≡ₚ presses' ->
        final_set ∅ (map XI_RawKeyPress presses)
        = final_set ∅ (map XI_RawKeyPress presses')).
Proof.
  intros combo invoked.
  assert (Hiff : invoked <->
            keys combo <> [] /\ sort_keys (keys combo) = snapshot downSet).
  { unfold invoked. rewrite invoked_iff, triggers_iff.
    unfold snapshot. by rewrite sort_keys_idem. }
  assert (Hset : invoked -> list_to_set (keys combo) = downSet).
  { intros [_ Heq]%Hiff.
    assert (keys combo ≡ₚ elements downSet) as Hp.
    { rewrite <- (sort_keys_perm (keys combo)), Heq. apply snapshot_perm. }
    rewrite (list_to_set_perm_L _ _ Hp). apply list_to_set_elements_L. }
  split; [exact Hiff|]. split; [exact Hset|].
  split.
  { intros Hne Hnd Heq. apply Hiff. split; [done|].
    unfold snapshot. apply sort_keys_eq_iff.
    rewrite <- Heq. symmetry. by apply elements_list_to_set. }
  split; [intros Hsub Hinv%Hset; set_solver|].
  split; [intros Hsub Hinv%Hset; set_solver|].
  split.
  - intros config' Hp. rewrite Hiff.
    rewrite invoked_iff, triggers_iff. unfold snapshot at 1.
    rewrite sort_keys_idem. fold (snapshot downSet).
    rewrite (proj2 (sort_keys_eq_iff _ _) Hp).
    split; intros [Hne ?]; (split; [|done]); intros Hnil; apply Hne.
    + rewrite Hnil in Hp. by apply Permutation_nil_r in Hp.
    + fold combo in Hp. rewrite Hnil in Hp. by apply Permutation_nil_l in Hp.
  - intros presses presses' Hp. rewrite !final_set_presses.
    f_equal. apply list_to_set_perm_L. by apply fmap_Permutation.
Qed.

End HotkeyTrigger.

Lemma hotkey_exact_set_witness :
  let config := Sample.config_recording [38; 37]%Z in
  let held := Hotkey.final_set ∅ [Hotkey.XI_RawKeyPress 37; Hotkey.XI_RawKeyPress 38] in
  Hotkey.onToggleRecord ∈ Hotkey.on_currentDownSetChanged config (Hotkey.snapshot held).
Proof.
  intros config held.
  apply (proj1 (hotkey_exact_set config Hotkey.onToggleRecord held)).
  split; [discriminate | vm_compute; reflexivity].
Defined.

(** C9 (the code departs from it): the watcher emits its signal on every
    key notification, whether or not the set changed.  With the combo [38]
    bound and key 38 down, a second press notification for 38, or the
    release of a key that was never seen going down, leaves the set as it
    was and invokes the slot a second time. *)
Theorem repeated_press_fires_again :
  Hotkey.watch (Sample.config_recording [38]%Z)
    [Hotkey.XI_RawKeyPress 38; Hotkey.XI_RawKeyPress 38]
  = [[Hotkey.onToggleRecord]; [Hotkey.onToggleRecord]]
  /\ Hotkey.final_set ∅ [Hotkey.XI_RawKeyPress 38; Hotkey.XI_RawKeyPress 38]
     = Hotkey.final_set ∅ [Hotkey.XI_RawKeyPress 38]
  /\ Hotkey.watch (Sample.config_recording [38]%Z)
       [Hotkey.XI_RawKeyPress 38; Hotkey.XI_RawKeyRelease 36]
     = [[Hotkey.onToggleRecord]; [Hotkey.onToggleRecord]]
  /\ Hotkey.final_set ∅ [Hotkey.XI_RawKeyPress 38; Hotkey.XI_RawKeyRelease 36]
     = Hotkey.final_set ∅ [Hotkey.XI_RawKeyPress 38].
Proof. repeat split; vm_compute; reflexivity. Qed.

Section ComboDialog.

Import CaptureDialog.

Variable keycodeToString : Z -> string.

Lemma get_set (target : Target) (c : HotkeyCombo) (config : Config) :
  get target (set target c config) = c.
Proof. by destruct target. Qed.

(** C10: opened on a slot whose combo holds 3 keys, the dialog starts with
    an empty sequence; Save pressed at once stores the empty combo, named
    "None", in place of the 3 keys. *)
Theorem full_combo_cleared_on_open (target : Target) (config : Config) :
  length (keys (get target config)) = 3%nat ->
  seq (opened target config) = []
  /\ openCaptureDialog keycodeToString target config [clickSave]
     = set target {| keys := []; displayName := "None" |} config
  /\ get target (openCaptureDialog keycodeToString target config [clickSave])
     = {| keys := []; displayName := "None" |}.
Proof.
  intros Hlen.
  assert (seq (opened target config) = []) as Hseq.
  { unfold opened. cbn [seq]. by rewrite Hlen. }
  split; [exact Hseq|].
  assert (openCaptureDialog keycodeToString target config [clickSave]
          = set target {| keys := []; displayName := "None" |} config) as Hsave.
  { unfold openCaptureDialog. cbn [exec fst]. by rewrite Hseq. }
  split; [exact Hsave|]. rewrite Hsave. apply get_set.
Qed.

End ComboDialog.

Lemma full_combo_cleared_on_open_witness :
  let config := Sample.config_full_playback in
  CaptureDialog.get CaptureDialog.ForStartPlayback
    (CaptureDialog.openCaptureDialog (fun _ => "?")
       CaptureDialog.ForStartPlayback config [CaptureDialog.clickSave])
  = {| keys := []; displayName := "None" |}.
Proof.
  intros config.
  apply (full_combo_cleared_on_open (fun _ => "?")
           CaptureDialog.ForStartPlayback config).
  reflexivity.
Defined.

(** * Further properties *)

Section Strings.

Import KeyNames.

Lemma append_cons (c : Ascii.ascii) (b suffix : string) :
  String.String c b +:+ suffix = String.String c (b +:+ suffix).
Proof. reflexivity. Qed.

Lemma append_nil (suffix : string) : "" +:+ suffix = suffix.
Proof. reflexivity. Qed.

Lemma length_app_string (b suffix : string) :
  String.length (b +:+ suffix) = (String.length b + String.length suffix)%nat.
Proof.
  induction b as [|c b IH]; [done|].
  rewrite append_cons. cbn [String.length]. by rewrite IH.
Qed.

Lemma append_inj_r (b b' suffix : string) :
  String.length b = String.length b' ->
  b +:+ suffix = b' +:+ suffix -> b = b'.
Proof.
  revert b'. induction b as [|c b IH]; intros [|c' b'] Hlen Heq;
    try done.
  rewrite !append_cons in Heq. cbn [String.length] in Hlen.
  injection Heq as -> Heq. f_equal. apply IH; [lia | done].
Qed.

Lemma append_cancel (b b' suffix : string) :
  b +:+ suffix = b' +:+ suffix -> b = b'.
Proof.
  intros Heq. apply (append_inj_r b b' suffix); [|done].
  pose proof (f_equal String.length Heq) as Hl.
  rewrite !length_app_string in Hl. lia.
Qed.

Lemma endsWith_append (p suffix : string) :
  Window.endsWith (p +:+ suffix) suffix = true.
Proof.
  induction p as [|c p IH].
  - rewrite append_nil.
    destruct suffix as [|c s]; cbn [Window.endsWith];
      [by apply bool_decide_eq_true|].
    apply orb_true_iff. left. by apply bool_decide_eq_true.
  - rewrite append_cons. cbn [Window.endsWith]. rewrite IH. apply orb_true_r.
Qed.

Lemma left_append (b suffix : string) (n : nat) :
  n = String.length suffix ->
  left (String.length (b +:+ suffix) - n) (b +:+ suffix) = b.
Proof.
  intros ->. rewrite length_app_string.
  replace (String.length b + String.length suffix - String.length suffix)%nat
    with (String.length b) by lia.
  unfold left. induction b as [|c b IH].
  - rewrite append_nil. by destruct suffix.
  - rewrite append_cons. cbn [String.length String.substring]. by rewrite IH.
Qed.

End Strings.

Section MonitorSearch.

Import Monitor Layouts.

Lemma first_output_eligible (hit : OutputInfo -> CrtcInfo -> bool)
    (outs : list (option OutputInfo)) :
  first_output hit outs
  = match list_find (fun oc => hit oc.1 oc.2 = true) (eligible outs) with
    | Some (_, (o, c)) => monitor_of o c
    | None => no_monitor
    end.
Proof.
  induction outs as [|[o|] outs IH]; cbn [first_output eligible]; [done| |done].
  destruct (out_connected o); [|done].
  destruct (out_crtc o) as [c|]; [|done].
  cbn [list_find]. case_decide as Hh; cbn [fst snd] in Hh.
  - by rewrite Hh.
  - apply not_true_is_false in Hh. rewrite Hh, IH.
    destruct (list_find _ (eligible outs)) as [[i [o' c']]|]; done.
Qed.

End MonitorSearch.

Section RecordedPositions.

Import Monitor Layouts Recorder.

Lemma found_by_point (dpy : Layout) (px py : Z) :
  mi_name (findMonitorForPoint dpy px py) <> "" ->
  exists i o c,
    outputs dpy !! i = Some (o, c)
    /\ contains_point px py o c = true
    /\ findMonitorForPoint dpy px py = monitor_of o c.
Proof.
  destruct dpy as [outs|]; [|done]. cbn [findMonitorForPoint outputs].
  rewrite first_output_eligible.
  destruct (list_find _ (eligible outs)) as [[i [o c]]|] eqn:Hf; [|done].
  intros _. apply list_find_Some in Hf as (Hi & Hhit & _).
  by exists i, o, c.
Qed.

Lemma found_by_name (dpy : Layout) (i : nat) (o : OutputInfo) (c : CrtcInfo) :
  distinct_names dpy -> outputs dpy !! i = Some (o, c) ->
  findMonitorByName dpy (out_name o) = monitor_of o c.
Proof.
  intros Hnd Hi. destruct dpy as [outs|]; [|done].
  unfold distinct_names in Hnd.
  cbn [findMonitorByName outputs] in *. rewrite first_output_eligible.
  destruct (list_find _ (eligible outs)) as [[j [o' c']]|] eqn:Hf.
  - apply list_find_Some in Hf as (Hj & Hhit & _).
    cbn [fst snd] in Hhit. apply bool_decide_eq_true in Hhit.
    assert (i = j) as ->; [|congruence].
    eapply (NoDup_lookup _ i j (out_name o)); [exact Hnd | |].
    + by rewrite list_lookup_fmap, Hi.
    + by rewrite list_lookup_fmap, Hj, Hhit.
  - apply list_find_None in Hf. rewrite Forall_forall in Hf.
    exfalso. apply (Hf (o, c)); [by eapply list_elem_of_lookup_2|].
    cbn. by apply bool_decide_eq_true.
Qed.

Lemma to_int_add_to_int (a b : Z) :
  Int.to_int (a + Int.to_int b) = Int.to_int (a + b).
Proof.
  unfold Int.to_int, Int.wrap_signed. f_equal.
  replace (a + ((b + 2 ^ (32 - 1)) mod 2 ^ 32 - 2 ^ (32 - 1)) + 2 ^ (32 - 1))%Z
    with (a + (b + 2 ^ (32 - 1)) mod 2 ^ 32)%Z by lia.
  rewrite Zplus_mod_idemp_r. f_equal. lia.
Qed.

Lemma add_sub_back (origin p : Z) :
  Int.is_int p = true -> Int.add origin (Int.sub p origin) = p.
Proof.
  intros Hp. unfold Int.add, Int.sub. rewrite to_int_add_to_int.
  replace (origin + (p - origin))%Z with p by lia. by apply to_int_id.
Qed.

(** The search by position finds the first connected output that contains
    the point, when there is one. *)
Lemma point_is_found (dpy : Layout) (px py : Z) (i : nat)
    (out : OutputInfo) (c : CrtcInfo) :
  outputs dpy !! i = Some (out, c) ->
  contains_point px py out c = true ->
  exists j out' c',
    (j <= i)%nat
    /\ outputs dpy !! j = Some (out', c')
    /\ contains_point px py out' c' = true
    /\ (forall j' oc, (j' < j)%nat -> outputs dpy !! j' = Some oc ->
          contains_point px py oc.1 oc.2 = false)
    /\ findMonitorForPoint dpy px py = monitor_of out' c'.
Proof.
  intros Hi Hhit. destruct dpy as [outs|]; [|done].
  cbn [findMonitorForPoint outputs] in *. rewrite first_output_eligible.
  destruct (list_find _ (eligible outs)) as [[j [out' c']]|] eqn:Hf.
  - apply list_find_Some in Hf as (Hj & Hhit' & Hmin). cbn [fst snd] in Hhit'.
    exists j, out', c'. split; [|split; [done|split; [done|split; [|done]]]].
    + destruct (decide (j <= i)%nat) as [|Hgt]; [done|].
      destruct (Hmin i (out, c) Hi ltac:(lia)). done.
    + intros j' oc Hlt Hj'. apply not_true_is_false. by eapply Hmin.
  - apply list_find_None in Hf. rewrite Forall_forall in Hf.
    destruct (Hf (out, c)); [by eapply list_elem_of_lookup_2 | done].
Qed.

(** X1: when the pointer is inside a connected output, a mouse event
    recorded there names the first connected output that contains it, and
    its relative offset lies inside that output: 0 <= relx < width and
    0 <= rely < height, with origin + offset the absolute position.  (The
    right and bottom edges of the connected outputs are taken to fit an
    [int], as the containment test adds origin and size.) *)
Theorem recorded_offset_inside_monitor (ty : EventType) (t : Z)
    (o : Observed) (btn : Z) (isPress : bool) (i : nat)
    (out : OutputInfo) (c : CrtcInfo) :
  outputs (obs_layout o) !! i = Some (out, c) ->
  contains_point (obs_px o) (obs_py o) out c = true ->
  Forall fits (outputs (obs_layout o)) ->
  let e := mouse_event ty t o btn isPress in
  exists j out' c',
    (j <= i)%nat
    /\ outputs (obs_layout o) !! j = Some (out', c')
    /\ contains_point (obs_px o) (obs_py o) out' c' = true
    /\ (forall j' oc, (j' < j)%nat ->
          outputs (obs_layout o) !! j' = Some oc ->
          contains_point (obs_px o) (obs_py o) oc.1 oc.2 = false)
    /\ ev_monitor e = out_name out'
    /\ (0 <= ev_relx e < Int.to_int (crtc_width c'))%Z
    /\ (0 <= ev_rely e < Int.to_int (crtc_height c'))%Z
    /\ ev_x e = (crtc_x c' + ev_relx e)%Z
    /\ ev_y e = (crtc_y c' + ev_rely e)%Z.
Proof.
  intros Hi Hhit Hfits e.
  destruct (point_is_found _ _ _ i out c Hi Hhit)
    as (j & out' & c' & Hle & Hj & Hhit' & Hmin & Hmi).
  exists j, out', c'. do 4 (split; [done|]).
  rewrite Forall_forall in Hfits.
  destruct (Hfits (out', c')) as [Hw Hh]; [by eapply list_elem_of_lookup_2|].
  cbn [fst snd] in Hw, Hh.
  unfold contains_point in Hhit'.
  apply andb_true_iff in Hhit' as [Hhit' Hy2].
  apply andb_true_iff in Hhit' as [Hhit' Hy1].
  apply andb_true_iff in Hhit' as [Hx1 Hx2].
  apply Z.leb_le in Hx1, Hy1. apply Z.ltb_lt in Hx2, Hy2.
  unfold Int.add in Hx2, Hy2. rewrite to_int_id in Hx2, Hy2 by done.
  pose proof (to_int_is_int (crtc_width c')) as Bw.
  pose proof (to_int_is_int (crtc_height c')) as Bh.
  unfold Int.is_int in Bw, Bh.
  apply andb_true_iff in Bw as [_ Bw]. apply andb_true_iff in Bh as [_ Bh].
  apply Z.ltb_lt in Bw, Bh.
  assert (ev_relx e = obs_px o - crtc_x c')%Z as ->.
  { cbn [e mouse_event ev_relx]. rewrite Hmi. cbn [monitor_of mi_x].
    unfold Int.sub. apply to_int_id.
    unfold Int.is_int. apply andb_true_iff.
    split; [apply Z.leb_le | apply Z.ltb_lt]; lia. }
  assert (ev_rely e = obs_py o - crtc_y c')%Z as ->.
  { cbn [e mouse_event ev_rely]. rewrite Hmi. cbn [monitor_of mi_y].
    unfold Int.sub. apply to_int_id.
    unfold Int.is_int. apply andb_true_iff.
    split; [apply Z.leb_le | apply Z.ltb_lt]; lia. }
  split; [cbn [e mouse_event ev_monitor]; by rewrite Hmi|].
  cbn [e mouse_event ev_x ev_y]. lia.
Qed.

(** What the switch sends for an event that resolves to no monitor: a move
    goes to the recorded position; a button or key event moves nothing. *)
Lemma dispatch_unresolved (dpy : Layout) (events : list Event) (i : nat)
    (e : Event) :
  Player.resolve dpy e = (ev_x e, ev_y e, false) ->
  match ev_type e with
  | MouseMove =>
      Taps.calls_of (Player.dispatch dpy events i e)
      = [Player.XTestFakeMotionEvent (ev_x e) (ev_y e); Player.XFlush]
  | MouseButton =>
      Taps.motions (Player.dispatch dpy events i e) = []
      /\ head (Taps.calls_of (Player.dispatch dpy events i e))
         = Some (Player.XTestFakeButtonEvent (ev_button e) (ev_pressed e))
  | Key => Taps.motions (Player.dispatch dpy events i e) = []
  end.
Proof.
  intros Hres. unfold Player.dispatch. rewrite Hres.
  destruct (ev_type e); [done| |done].
  cbn [app]. destruct (ev_pressed e); [|done].
  by destruct (Player.nextIsRelease events i e).
Qed.

(** X2: when no connected output contains the pointer, the event is
    recorded with an empty monitor name and the absolute position.  At
    replay, whatever the layout, such a move is sent as a pointer motion to
    exactly that position; such a button event is injected with no pointer
    motion before it, so it lands where the pointer then is. *)
Theorem unmatched_pointer_replays_absolute (ty : EventType) (t : Z)
    (o : Observed) (btn : Z) (isPress : bool) :
  Forall (fun oc => contains_point (obs_px o) (obs_py o) oc.1 oc.2 = false)
         (outputs (obs_layout o)) ->
  let e := mouse_event ty t o btn isPress in
  ev_monitor e = ""
  /\ ev_x e = obs_px o /\ ev_y e = obs_py o
  /\ forall dpy events i,
       match ty with
       | MouseMove =>
           Taps.calls_of (Player.dispatch dpy events i e)
           = [Player.XTestFakeMotionEvent (obs_px o) (obs_py o);
              Player.XFlush]
       | MouseButton =>
           Taps.motions (Player.dispatch dpy events i e) = []
           /\ head (Taps.calls_of (Player.dispatch dpy events i e))
              = Some (Player.XTestFakeButtonEvent btn isPress)
       | Key => Taps.motions (Player.dispatch dpy events i e) = []
       end.
Proof.
  intros Hnone e.
  assert (findMonitorForPoint (obs_layout o) (obs_px o) (obs_py o) = no_monitor)
    as Hmi.
  { destruct (obs_layout o) as [outs|]; [|done].
    cbn [findMonitorForPoint outputs] in *. rewrite first_output_eligible.
    destruct (list_find _ (eligible outs)) as [[i [o' c']]|] eqn:Hf; [|done].
    apply list_find_Some in Hf as (Hi & Hhit & _).
    rewrite Forall_forall in Hnone.
    specialize (Hnone (o', c') ltac:(by eapply list_elem_of_lookup_2)).
    cbn [fst snd] in *. congruence. }
  assert (ev_monitor e = "") as Hname.
  { cbn [e mouse_event ev_monitor]. by rewrite Hmi. }
  split; [done|]. split; [done|]. split; [done|].
  intros dpy events i.
  pose proof (dispatch_unresolved dpy events i e
                (resolve_fallback dpy e (or_introl Hname))) as Hd.
  by destruct ty.
Qed.

(** X3: recorded and replayed under the same layout, a mouse event goes
    back to the very position the pointer had, provided the connected
    outputs carry different names. *)
Theorem same_layout_replays_recorded_position (ty : EventType) (t : Z)
    (o : Observed) (btn : Z) (isPress : bool) :
  distinct_names (obs_layout o) ->
  Int.is_int (obs_px o) = true -> Int.is_int (obs_py o) = true ->
  let e := mouse_event ty t o btn isPress in
  (Player.resolve (obs_layout o) e).1 = (obs_px o, obs_py o).
Proof.
  intros Hnd Hx Hy e.
  destruct (decide (ev_monitor e = "")) as [Hn|Hn].
  - rewrite resolve_fallback by (by left). done.
  - destruct (found_by_point (obs_layout o) (obs_px o) (obs_py o) Hn)
      as (i & out & c & Hi & _ & Hmi).
    assert (ev_monitor e = out_name out) as Hname.
    { cbn [e mouse_event ev_monitor]. by rewrite Hmi. }
    pose proof (found_by_name (obs_layout o) i out c Hnd Hi) as Hby.
    rewrite <- Hname in Hby.
    rewrite resolve_found;
      [| done | rewrite Hby; cbn [monitor_of mi_name]; by rewrite <- Hname].
    rewrite Hby. cbn [fst]. cbn [e mouse_event ev_relx ev_rely].
    rewrite Hmi. cbn [monitor_of mi_x mi_y].
    by rewrite !add_sub_back.
Qed.

End RecordedPositions.

Section CapturedLog.

Import Recorder Logs.

Variable order : gset Z -> list Z.
Variable start : Z.

Lemma no_repeat_snoc (l : list (Z * Z)) (a : Z * Z) :
  no_repeat l -> last l <> Some a -> no_repeat (l ++ [a]).
Proof.
  induction l as [|x [|y l] IH]; intros Hn Hl; cbn.
  - done.
  - split; [|done]. intros ->. by apply Hl.
  - cbn in Hn. destruct Hn as [Hxy Hn]. split; [done|].
    apply IH; [done|]. done.
Qed.

Lemma move_positions_app (l1 l2 : list Event) :
  move_positions (l1 ++ l2) = move_positions l1 ++ move_positions l2.
Proof. unfold move_positions. by rewrite filter_app, map_app. Qed.

Lemma move_positions_other (e : Event) :
  ev_type e <> MouseMove -> move_positions [e] = [].
Proof.
  intros Hne. unfold move_positions. rewrite filter_cons, filter_nil.
  by case_decide.
Qed.

Lemma handle_moves_tracked (st : State) (ev : RawEvent) :
  moves_tracked st -> moves_tracked (handle start st ev).
Proof.
  unfold moves_tracked, handle. intros [Hn Hl].
  destruct (evtype ev); try done;
    try (cbn [push_back events last_x last_y];
         rewrite move_positions_app, move_positions_other, app_nil_r by done;
         done).
  destruct (_ || _) eqn:Hdiff; [|done]. cbn [events last_x last_y].
  rewrite move_positions_app.
  assert (move_positions [mouse_event MouseMove
            (Int.sub64 (obs_now (seen ev)) start) (seen ev) 0 false]
          = [(obs_px (seen ev), obs_py (seen ev))]) as -> by done.
  split; [|right; by rewrite last_snoc].
  apply no_repeat_snoc; [done|].
  destruct Hl as [-> | ->]; [done|]. intros [= Hx Hy].
  rewrite <- Hx, <- Hy, !Z.eqb_refl in Hdiff. done.
Qed.

(** X4: no two pointer moves that follow each other in a captured log are
    at the same position: a motion notification that finds the pointer where
    the last recorded move left it adds nothing. *)
Theorem moves_never_repeat_position (raw : list RawEvent) (stop : Observed) :
  no_repeat (move_positions (run BackendReady order start raw stop).2).
Proof.
  cbn [run snd]. unfold finish, synthesized. rewrite move_positions_app.
  assert (move_positions
            (map (fun b => mouse_event MouseButton
                             (Int.sub64 (obs_now stop) start) stop b false)
                 (order (downButtons (fold_left (handle start) raw initial))))
          = []) as ->.
  { induction (order _) as [|b l IH]; [done|]. cbn [map].
    unfold move_positions in *. rewrite filter_cons.
    case_decide as Hty; [done | exact IH]. }
  rewrite app_nil_r.
  assert (moves_tracked initial) as Hinit by (split; [done | by left]).
  revert Hinit. generalize initial.
  induction raw as [|ev raw IH]; intros st Hst; [by destruct Hst|].
  cbn [fold_left]. apply IH. by apply handle_moves_tracked.
Qed.

End CapturedLog.

Section CapturedTimes.

Import Recorder Logs.

Variable order : gset Z -> list Z.
Variable start : Z.

Lemma sub64_exact (now hi : Z) :
  (start <= now)%Z -> (now <= hi)%Z -> (hi - start < 2 ^ 63)%Z ->
  Int.sub64 now start = (now - start)%Z.
Proof.
  intros H1 H2 H3. apply to_int64_id. unfold Int.is_int64.
  apply andb_true_iff. split; [apply Z.leb_le | apply Z.ltb_lt]; lia.
Qed.

(** Each turn of the loop adds at most one event, stamped with the elapsed
    time of its notification. *)
Lemma handle_events (st : State) (ev : RawEvent) :
  events (handle start st ev) = events st
  \/ exists e, events (handle start st ev) = events st ++ [e]
               /\ ev_ms_since_start e = Int.sub64 (obs_now (seen ev)) start.
Proof.
  unfold handle. destruct (evtype ev); cbn [push_back events];
    try (right; eexists; split; [reflexivity | done]); [|by left].
  destruct (_ || _); [|by left]. right. eexists. split; [reflexivity | done].
Qed.

Lemma sorted_head_le_last (lo hi : Z) (mid : list Z) :
  StronglySorted Z.le (lo :: mid ++ [hi]) -> (lo <= hi)%Z.
Proof.
  intros [_ Hall]%StronglySorted_inv.
  rewrite Forall_app in Hall. destruct Hall as [_ Hall].
  by apply Forall_inv in Hall.
Qed.

Lemma fold_times (hi : Z) (raw : list RawEvent) :
  (hi - start < 2 ^ 63)%Z ->
  forall (lo : Z) (st : State),
  (start <= lo)%Z ->
  StronglySorted Z.le
    (lo :: ((fun ev => obs_now (seen ev)) <$> raw) ++ [hi]) ->
  StronglySorted Z.le (ev_ms_since_start <$> events st) ->
  Forall (fun e => (0 <= ev_ms_since_start e <= lo - start)%Z) (events st) ->
  StronglySorted Z.le
    (ev_ms_since_start <$> events (fold_left (handle start) raw st))
  /\ Forall (fun e => (0 <= ev_ms_since_start e <= hi - start)%Z)
            (events (fold_left (handle start) raw st)).
Proof.
  intros Hhi. induction raw as [|ev raw IH]; intros lo st Hlo Hs Hst Hb.
  - cbn [fold_left]. split; [done|].
    pose proof (sorted_head_le_last lo hi [] Hs).
    eapply Forall_impl; [exact Hb|]. cbn. intros; lia.
  - cbn [fold_left]. cbn [fmap list_fmap app] in Hs.
    pose proof (sorted_head_le_last lo hi
                  (obs_now (seen ev) :: ((fun ev => obs_now (seen ev)) <$> raw))
                  Hs) as Hlh.
    apply StronglySorted_inv in Hs as [Hs Hle].
    pose proof (Forall_inv Hle) as Hnow.
    pose proof (sorted_head_le_last _ _ _ Hs) as Hnh.
    assert (Int.sub64 (obs_now (seen ev)) start = obs_now (seen ev) - start)%Z
      as Hex by (apply (sub64_exact _ hi); lia).
    apply (IH (obs_now (seen ev))); [lia | done | |].
    + destruct (handle_events st ev) as [->|(e & -> & He)]; [done|].
      rewrite fmap_app. apply StronglySorted_app_2; [| done | by repeat constructor].
      intros x1 x2 (e1 & -> & He1)%list_elem_of_fmap Hx2.
      cbn in Hx2. apply list_elem_of_singleton in Hx2 as ->.
      rewrite Forall_forall in Hb. specialize (Hb e1 He1).
      rewrite He, Hex. lia.
    + destruct (handle_events st ev) as [->|(e & -> & He)].
      * eapply Forall_impl; [exact Hb|]. cbn. intros; lia.
      * apply Forall_app. split.
        -- eapply Forall_impl; [exact Hb|]. cbn. intros; lia.
        -- constructor; [|done]. rewrite He, Hex. lia.
Qed.

(** X5: with a clock that does not go back, the timestamps of a captured
    log never decrease, and all lie between 0 and the duration of the
    capture; the releases added at stop carry the latest one. *)
Theorem timestamps_never_decrease (raw : list RawEvent) (stop : Observed) :
  ticking start raw stop ->
  Sorted Z.le (ev_ms_since_start <$> (run BackendReady order start raw stop).2)
  /\ Forall (fun e => (0 <= ev_ms_since_start e
                       <= obs_now stop - start)%Z)
            (run BackendReady order start raw stop).2.
Proof.
  intros [Hs Hhi]. apply Sorted_StronglySorted in Hs; [|apply _].
  pose proof (sorted_head_le_last _ _ _ Hs) as Hle.
  destruct (fold_times (obs_now stop) raw Hhi start initial) as [Hsorted Hb];
    [lia | done | constructor | constructor |].
  cbn [run snd]. unfold finish, synthesized.
  set (st := fold_left (handle start) raw initial) in *.
  set (synth := map _ (order (downButtons st))).
  assert (Forall (fun e => ev_ms_since_start e = obs_now stop - start)%Z synth)
    as Hsy.
  { apply Forall_forall. intros e (b & -> & _)%list_elem_of_fmap.
    cbn [mouse_event ev_ms_since_start].
    apply (sub64_exact _ (obs_now stop)); lia. }
  split.
  - apply StronglySorted_Sorted. rewrite fmap_app.
    apply StronglySorted_app_2; [| done |].
    + intros x1 x2 (e1 & -> & He1)%list_elem_of_fmap
        (e2 & -> & He2)%list_elem_of_fmap.
      rewrite Forall_forall in Hb, Hsy.
      rewrite (Hsy e2 He2). by apply Hb.
    + clear -Hsy. induction Hsy as [|e l He Hl IH]; [constructor|].
      cbn. constructor; [done|].
      apply Forall_forall. intros x (e' & -> & He')%list_elem_of_fmap.
      rewrite Forall_forall in Hl. rewrite He, (Hl e' He'). lia.
  - apply Forall_app. split; [done|].
    eapply Forall_impl; [exact Hsy|]. cbn. intros e ->. lia.
Qed.

End CapturedTimes.

Section CapturedKeys.

Import Recorder Logs.

Variable order : gset Z -> list Z.
Variable start : Z.



End CapturedKeys.

Section ReplayTaps.

Import Player Taps.

Lemma exec_calls (acts : list Act) (w : World) :
  (exec acts w).1.*2 = calls_of acts.
Proof.
  revert w. induction acts as [|[c|ms] acts IH]; intros w; cbn [exec]; [done| |].
  - specialize (IH (tick w)). destruct (exec acts (tick w)) as [calls w'].
    cbn in *. by rewrite IH.
  - apply IH.
Qed.

(** The button calls of the switch do not depend on the layout. *)
Lemma dispatch_buttons (dpy : Layout) (events : list Event) (i : nat) (e : Event) :
  filter (fun c => is_button c = true) (calls_of (dispatch dpy events i e))
  = tap e (events !! S i).
Proof.
  unfold dispatch, tap, nextIsRelease, released_by.
  destruct (ev_type e); [by destruct (resolve dpy e) as [[??]?] | | done].
  destruct (resolve dpy e) as [[ax ay] found].
  destruct found, (ev_pressed e); cbn; try done;
    by destruct (events !! S i) as [n|]; [destruct (_ && _ && _)|].
Qed.

Lemma turn_buttons (env : Env) (speed : spec_float) (events : list Event)
    (k : nat) (start : Z) (i : nat) (e : Event) (w : World) :
  exists f,
    fired (turn env speed events k start i e w) = fired w ++ [f]
    /\ filter (fun c => is_button c = true) (f_calls f).*2
       = tap e (events !! S i).
Proof.
  unfold turn.
  pose proof (exec_calls
    (dispatch (layout_at env (clock (wait_until
       (Int.add64 start (offset speed (ev_ms_since_start e))) w))) events i e)
    (wait_until (Int.add64 start (offset speed (ev_ms_since_start e))) w)) as Hc.
  pose proof (exec_spec
    (dispatch (layout_at env (clock (wait_until
       (Int.add64 start (offset speed (ev_ms_since_start e))) w))) events i e)
    (wait_until (Int.add64 start (offset speed (ev_ms_since_start e))) w))
    as (_ & _ & Hf).
  destruct (exec _ _) as [calls w2]. cbn [fst snd] in *.
  eexists. split.
  - cbn [record_fired fired]. by rewrite Hf, wait_until_fired.
  - cbn [f_calls]. rewrite Hc. apply dispatch_buttons.
Qed.

Lemma pass_buttons (env : Env) (c0 : Z) (speed : spec_float)
    (events : list Event) (k : nat) (start : Z) (rest : list Event) :
  stop_at env = None ->
  forall (i : nat) (w : World),
  drop i events = rest ->
  filter (fun c => is_button c = true)
         (concat (f_calls <$> fired (pass env c0 speed events k start i rest w))).*2
  = filter (fun c => is_button c = true) (concat (f_calls <$> fired w)).*2
    ++ taps_from rest.
Proof.
  intros Hstop. induction rest as [|e rest IH]; intros i w Hdrop; cbn [pass].
  - by rewrite app_nil_r.
  - rewrite running_no_stop by done.
    destruct (turn_buttons env speed events k start i e w) as (f & Hf & Hb).
    assert (drop (S i) events = rest) as Hdrop'.
    { replace (S i) with (i + 1)%nat by lia. by rewrite <- drop_drop, Hdrop. }
    rewrite (IH (S i) _ Hdrop'), Hf.
    rewrite fmap_app, concat_app, fmap_app, filter_app, <- app_assoc.
    f_equal. cbn [fmap list_fmap concat taps_from]. rewrite app_nil_r, Hb.
    f_equal. f_equal.
    rewrite <- (Nat.add_0_r (S i)), <- lookup_drop, Hdrop'. by destruct rest.
Qed.

Lemma loop_buttons (env : Env) (c0 : Z) (speed : spec_float)
    (events : list Event) (todo : nat) :
  stop_at env = None ->
  forall (k : nat) (w : World),
  filter (fun c => is_button c = true)
         (concat (f_calls <$> fired (loop env c0 speed events todo k w))).*2
  = filter (fun c => is_button c = true) (concat (f_calls <$> fired w)).*2
    ++ concat (replicate todo (taps_from events)).
Proof.
  intros Hstop. induction todo as [|todo IH]; intros k w; cbn [loop].
  - by rewrite app_nil_r.
  - rewrite running_no_stop by done.
    rewrite IH, (pass_buttons env c0 speed events k (clock w) events Hstop 0 w)
      by done.
    by rewrite <- app_assoc.
Qed.

End ReplayTaps.

Section ReplaySettles.

Import Player Taps.

Lemma app_split {A} (l1 l2 pre post : list A) (x : A) :
  l1 ++ l2 = pre ++ x :: post ->
  (exists post', l1 = pre ++ x :: post' /\ post = post' ++ l2)
  \/ (exists pre', pre = l1 ++ pre' /\ l2 = pre' ++ x :: post).
Proof.
  revert pre. induction l1 as [|a l1 IH]; intros pre Heq.
  - right. by exists pre.
  - destruct pre as [|p pre]; cbn in Heq; injection Heq as -> Heq.
    + left. by exists l1.
    + destruct (IH pre Heq) as [(post' & -> & ->)|(pre' & -> & ->)].
      * left. by exists post'.
      * right. by exists pre'.
Qed.

Lemma settled_app (l1 l2 : list XCall) :
  settled l1 -> settled l2 -> settled (l1 ++ l2).
Proof.
  intros H1 H2 pre b post Heq.
  destruct (app_split _ _ _ _ _ Heq) as [(post' & -> & ->)|(pre' & -> & ->)].
  - apply elem_of_app. left. by eapply H1.
  - by eapply H2.
Qed.

Lemma settled_cons (c : XCall) (l : list XCall) :
  settled l ->
  (forall b, c = XTestFakeButtonEvent b true -> XTestFakeButtonEvent b false ∈ l) ->
  settled (c :: l).
Proof.
  intros Hl Hc pre b post Heq. destruct pre as [|p pre]; cbn in Heq.
  - injection Heq as -> ->. by apply Hc.
  - injection Heq as -> ->. by eapply Hl.
Qed.

Lemma settled_filter (l : list XCall) :
  settled (filter (fun c => is_button c = true) l) -> settled l.
Proof.
  intros Hs pre b post ->.
  rewrite filter_app, filter_cons_True in Hs by done.
  specialize (Hs _ _ _ eq_refl). by apply list_elem_of_filter in Hs as [_ ?].
Qed.

Lemma settled_taps (rest : list Event) : settled (taps_from rest).
Proof.
  induction rest as [|e rest IH]; [by intros [|??] ???|].
  cbn [taps_from]. unfold tap.
  destruct (ev_type e) eqn:Hty; try done.
  destruct (ev_pressed e) eqn:Hp; cbn [andb app].
  - destruct (released_by e (head rest)) eqn:Hrel; cbn [negb app].
    + apply settled_cons; [done|]. intros b [= <-].
      destruct rest as [|n rest]; [done|]. cbn [head released_by] in Hrel.
      apply andb_true_iff in Hrel as [Hrel Hnp].
      apply andb_true_iff in Hrel as [Hnt Hnb].
      apply bool_decide_eq_true in Hnt. apply Z.eqb_eq in Hnb.
      apply negb_true_iff in Hnp.
      cbn [taps_from]. unfold tap at 1. rewrite Hnt, Hnp, Hnb. cbn.
      apply list_elem_of_here.
    + apply settled_cons.
      * by apply settled_cons.
      * intros b [= <-]. apply list_elem_of_here.
  - apply settled_cons; [done|]. by intros b [=].
Qed.

Lemma settled_passes (events : list Event) (n : nat) :
  settled (concat (replicate n (taps_from events))).
Proof.
  induction n as [|n IH]; [by intros [|??] ???|].
  cbn [replicate concat]. apply settled_app; [apply settled_taps | done].
Qed.

Lemma final_calls_are (env : Env) (speed : spec_float)
    (loops : Z) (e : Event) (rest : list Event) (now : Z) (lat : list N) :
  (final_calls (run true env speed loops (e :: rest) now lat)).*2
  = calls_of safety_release.
Proof.
  unfold run.
  pose proof (exec_calls safety_release
    (loop env now speed (e :: rest) (Z.to_nat loops) 0 (started now lat))) as Hc.
  by destruct (exec safety_release _) as [calls w2].
Qed.

Lemma all_calls_idle (display_ok : bool) (env : Env) (speed : spec_float)
    (loops : Z) (events : list Event) (now : Z) (lat : list N) :
  events = [] \/ display_ok = false ->
  all_calls (run display_ok env speed loops events now lat) = [].
Proof.
  intros [-> | ->]; [done|]. by destruct events.
Qed.

Lemma no_press_in_safety_release (b : Z) :
  XTestFakeButtonEvent b true ∉ calls_of safety_release.
Proof. vm_compute. set_solver. Qed.

(** X7: in a replay that is not cancelled, every button press sent to the
    X server is followed by a release of the same button: the recorded one
    when it is the next event, otherwise the one the player adds 30 ms
    later. *)
Theorem every_press_is_released (display_ok : bool) (env : Env)
    (speed : spec_float) (loops : Z) (events : list Event) (now : Z)
    (lat : list N) :
  stop_at env = None ->
  settled (all_calls (run display_ok env speed loops events now lat)).
Proof.
  intros Hstop.
  destruct (decide (events = [] \/ display_ok = false)) as [Hidle|Hrun].
  { rewrite all_calls_idle by done. by intros [|??] ???. }
  destruct events as [|e rest]; [by destruct Hrun; left|].
  destruct display_ok; [|by destruct Hrun; right].
  unfold all_calls. rewrite fmap_app, final_calls_are, run_handled by done.
  apply settled_app.
  - apply settled_filter. rewrite loop_buttons by done. cbn [started fired].
    apply settled_passes.
  - intros pre b post Heq.
    destruct (no_press_in_safety_release b).
    rewrite Heq. apply elem_of_app. right. apply list_elem_of_here.
Qed.

(** X8: whenever a replay ends, cancelled or not, every press of one of the
    buttons 1 to 7 that was sent has a release of that button sent after it:
    the player releases the seven buttons before it reports the end. *)
Theorem buttons_1_to_7_end_released (display_ok : bool) (env : Env)
    (speed : spec_float) (loops : Z) (events : list Event) (now : Z)
    (lat : list N) :
  settled_1_to_7 (all_calls (run display_ok env speed loops events now lat)).
Proof.
  intros pre b post Heq Hb.
  destruct (decide (events = [] \/ display_ok = false)) as [Hidle|Hrun].
  { rewrite all_calls_idle in Heq by done. by destruct pre. }
  destruct events as [|e rest]; [by destruct Hrun; left|].
  destruct display_ok; [|by destruct Hrun; right].
  unfold all_calls in Heq. rewrite fmap_app, final_calls_are in Heq.
  destruct (app_split _ _ _ _ _ Heq) as [(post' & _ & ->)|(pre' & _ & Hf)].
  - apply elem_of_app. right.
    assert (b = 1 \/ b = 2 \/ b = 3 \/ b = 4 \/ b = 5 \/ b = 6 \/ b = 7)%Z
      as Hcases by lia.
    vm_compute. set_solver.
  - destruct (no_press_in_safety_release b).
    rewrite Hf. apply elem_of_app. right. apply list_elem_of_here.
Qed.

End ReplaySettles.

Section DownSet.

Import Hotkey Keys.

Lemma final_set_down (code : Z) (evs : list RawKey) :
  forall s : gset Z,
  bool_decide (code ∈ final_set s evs)
  = down_after code (bool_decide (code ∈ s)) evs.
Proof.
  unfold down_after.
  induction evs as [|[k|k] evs IH]; intros s; cbn [final_set fold_left step fst];
    [done| |]; rewrite IH; f_equal;
    destruct (decide (Int.to_uint k = code)) as [Hk|Hk].
  - rewrite (bool_decide_eq_true_2 _ Hk). apply bool_decide_eq_true_2. set_solver.
  - rewrite (bool_decide_eq_false_2 _ Hk). apply bool_decide_ext. set_solver.
  - rewrite (bool_decide_eq_true_2 _ Hk). apply bool_decide_eq_false_2. set_solver.
  - rewrite (bool_decide_eq_false_2 _ Hk). apply bool_decide_ext. set_solver.
Qed.

(** X9: a key is in the watcher's down-set exactly when the latest
    notification about it was a press. *)
Theorem down_set_is_latest_notice (code : Z) (evs : list RawKey) :
  code ∈ final_set ∅ evs <-> down_after code false evs = true.
Proof.
  pose proof (final_set_down code evs ∅) as H.
  rewrite (bool_decide_eq_false_2 (code ∈ (∅ : gset Z))) in H by set_solver.
  rewrite <- H. symmetry. apply bool_decide_eq_true.
Qed.

(** X10: a slot is invoked only for a combo that holds a key and a
    down-set that holds one: an unset combo never fires, and nothing fires
    when the last key goes up. *)
Theorem nothing_fires_without_keys (config : Config) (a : Invoked)
    (downset : list Z) :
  a ∈ on_currentDownSetChanged config downset ->
  keys (bound_to config a) <> [] /\ downset <> [].
Proof.
  intros [Hne Heq]%invoked_iff%triggers_iff. split; [done|].
  intros ->. apply Hne. apply Permutation_nil_r.
  rewrite <- (sort_keys_perm (keys (bound_to config a))), Heq.
  apply sort_keys_perm.
Qed.

End DownSet.

Section DialogRuns.

Import CaptureDialog.

Variable keycodeToString : Z -> string.

Lemma exec_saved (target : Target) (config : Config) (inputs : list Input) :
  forall (d : Dialog) (config' : Config),
  exec keycodeToString target config d inputs = (config', Some Accepted) ->
  (length (seq d) <= 3)%nat ->
  exists ks,
    config' = set target
                {| keys := ks;
                   displayName := match ks with
                                  | [] => "None"
                                  | _ => comboToDisplay keycodeToString ks
                                  end |} config
    /\ (length ks <= 3)%nat
    /\ (NoDup (seq d) -> NoDup ks)
    /\ (forall k, k ∈ ks -> k ∈ seq d \/ capturedKey k ∈ inputs).
Proof.
  induction inputs as [|[k| | | |] inputs IH]; intros d config' Hex Hlen;
    cbn [exec] in Hex; try done.
  - assert (forall d', (length (seq d') <= 3)%nat ->
              (NoDup (seq d) -> NoDup (seq d')) ->
              (forall x, x ∈ seq d' -> x ∈ seq d \/ x = k) ->
              exec keycodeToString target config d' inputs
              = (config', Some Accepted) ->
              exists ks,
                config' = set target
                  {| keys := ks;
                     displayName := match ks with
                                    | [] => "None"
                                    | _ => comboToDisplay keycodeToString ks
                                    end |} config
                /\ (length ks <= 3)%nat
                /\ (NoDup (seq d) -> NoDup ks)
                /\ (forall x, x ∈ ks ->
                      x ∈ seq d \/ capturedKey x ∈ capturedKey k :: inputs))
      as Hstep.
    { intros d' Hlen' Hnd' Hin' Hex'.
      destruct (IH _ _ Hex' Hlen') as (ks & -> & Hk & Hnd & Hin).
      exists ks. split; [done|]. split; [done|]. split; [by auto|].
      intros x [Hx|Hx]%Hin; [|right; by apply list_elem_of_further].
      destruct (Hin' x Hx) as [?| ->]; [by left|right; apply list_elem_of_here]. }
    destruct (worker_running d); [|by apply (Hstep d); auto].
    case_bool_decide as Hdup; [by apply (Hstep d); auto|].
    destruct (Nat.ltb_spec (length (seq d)) 3) as [Hlt|Hge];
      [|by apply (Hstep d); auto].
    apply (Hstep _) in Hex; [done|..]; cbn [seq].
    + rewrite length_app. cbn. lia.
    + intros Hd. apply NoDup_app. split; [done|].
      split; [|apply NoDup_singleton].
      by intros x Hx ->%list_elem_of_singleton.
    + intros x [Hx| ->%list_elem_of_singleton]%elem_of_app; auto.
  - destruct (IH _ _ Hex) as (ks & -> & Hk & Hnd & Hin); [cbn; lia|].
    exists ks. split; [done|]. split; [done|]. split.
    + intros _. apply Hnd. constructor.
    + intros x [Hx|Hx]%Hin; [by apply elem_of_nil in Hx|].
      right. by apply list_elem_of_further.
  - cbv zeta in Hex. injection Hex as <-. exists (seq d).
    split; [reflexivity|]. split; [exact Hlen|]. split; [done|]. by left.
  - assert (forall d', seq d' = seq d ->
              exec keycodeToString target config d' inputs
              = (config', Some Accepted) ->
              exists ks,
                config' = set target
                  {| keys := ks;
                     displayName := match ks with
                                    | [] => "None"
                                    | _ => comboToDisplay keycodeToString ks
                                    end |} config
                /\ (length ks <= 3)%nat
                /\ (NoDup (seq d) -> NoDup ks)
                /\ (forall x, x ∈ ks ->
                      x ∈ seq d \/ capturedKey x ∈ timerTimeout :: inputs))
      as Hstep.
    { intros d' Hseq Hex'.
      destruct (IH _ _ Hex') as (ks & -> & Hk & Hnd & Hin);
        [by rewrite Hseq|].
      rewrite Hseq in Hnd, Hin.
      exists ks. split; [done|]. split; [done|]. split; [done|].
      intros x [Hx|Hx]%Hin; [by left|right; by apply list_elem_of_further]. }
    destruct (timer_active d); by apply Hstep in Hex.
Qed.

(** X11: a combo saved from the capture dialog has at most three keys,
    each of them a key the combo held before or one pressed in the dialog;
    no key is repeated if none was; the other two combos and the last
    directory are left as they were. *)
Theorem saved_combo_is_short (target : Target) (config config' : Config)
    (inputs : list Input) :
  exec keycodeToString target config (opened target config) inputs
  = (config', Some Accepted) ->
  (length (keys (get target config')) <= 3)%nat
  /\ (NoDup (keys (get target config)) -> NoDup (keys (get target config')))
  /\ (forall k, k ∈ keys (get target config') ->
        k ∈ keys (get target config) \/ capturedKey k ∈ inputs)
  /\ lastDir config' = lastDir config
  /\ (forall other, other <> target -> get other config' = get other config).
Proof.
  intros Hex.
  destruct (exec_saved target config inputs _ _ Hex)
    as (ks & -> & Hk & Hnd & Hin).
  { unfold opened. cbn [seq].
    destruct (Nat.leb_spec 3 (length (keys (get target config)))); cbn; lia. }
  rewrite get_set. cbn [keys]. split; [done|]. split; [|split].
  - intros Hd. apply Hnd. unfold opened. cbn [seq].
    destruct (3 <=? _)%nat; [constructor | done].
  - intros k [Hx|Hx]%Hin; [|by right]. left.
    unfold opened in Hx. cbn [seq] in Hx.
    destruct (3 <=? _)%nat; [by apply elem_of_nil in Hx | done].
  - split; [by destruct target|].
    intros other Hne. by destruct target, other.
Qed.

(** X12: a capture dialog that is left without Save leaves the
    configuration as it was, whatever was pressed in it. *)
Theorem only_save_changes_config (target : Target) (config : Config)
    (inputs : list Input) :
  clickSave ∉ inputs ->
  openCaptureDialog keycodeToString target config inputs = config.
Proof.
  unfold openCaptureDialog. generalize (opened target config).
  induction inputs as [|[k| | | |] inputs IH]; intros d Hno; cbn [exec];
    try done.
  - assert (clickSave ∉ inputs) as Hno' by set_solver.
    destruct (worker_running d); [|by apply IH].
    case_bool_decide; [by apply IH|].
    destruct (_ <? _)%nat; by apply IH.
  - apply IH. set_solver.
  - set_solver.
  - assert (clickSave ∉ inputs) as Hno' by set_solver.
    destruct (timer_active d); by apply IH.
Qed.

End DialogRuns.

Section ConfigFile.

Import Json Settings.

Ltac json_lookup :=
  unfold value;
  repeat first
    [ rewrite lookup_insert_eq
    | rewrite lookup_insert_ne by done
    | rewrite lookup_empty ].

Lemma load_save_keys (ks : list Z) :
  Forall (fun k => Int.is_uint k = true) ks ->
  map (fun v => Int.to_uint (toInt v))
    (map (fun k => of_int (Int.to_int k)) ks) = ks.
Proof.
  induction 1 as [|k ks Hk _ IH]; [done|]. cbn [map].
  by rewrite IH, toInt_of_int, to_uint_to_int by (done || apply to_int_is_int).
Qed.

Lemma load_save_combo (c : HotkeyCombo) :
  Forall (fun k => Int.is_uint k = true) (keys c) ->
  loadCombo (toObject (saveCombo c)) = c.
Proof.
  intros Hk. destruct c as [ks name]. unfold loadCombo, saveCombo.
  cbn [toObject keys displayName] in *. json_lookup.
  cbn [toArray toString]. by rewrite load_save_keys.
Qed.

Lemma load_config_document (homePath : string) (config before : Config) :
  keys_unsigned config ->
  loadConfig homePath (Holds (config_document config)) before = config.
Proof.
  unfold keys_unsigned. rewrite !Forall_app. intros (H1 & H2 & H3).
  destruct config as [dir c1 c2 c3]. cbn [config_document loadConfig
    lastDir startRecording startPlayback stopPlayback] in *.
  json_lookup. cbn [toString_or].
  by rewrite !load_save_combo.
Qed.

(** X13: a configuration written by [saveConfig] is read back by
    [loadConfig] as it was: the last directory, and the keys and display
    name of each combo. *)
Theorem config_round_trip (homePath : string) (config before : Config)
    (file : ConfigFile) :
  keys_unsigned config ->
  loadConfig homePath (saveConfig true config file) before = config.
Proof.
  intros Hk. cbn [saveConfig]. destruct config as [dir c1 c2 c3].
  unfold keys_unsigned in Hk. rewrite !Forall_app in Hk.
  cbn [startRecording startPlayback stopPlayback] in Hk.
  destruct Hk as (H1 & H2 & H3).
  cbn [config_document loadConfig lastDir startRecording startPlayback
       stopPlayback].
  json_lookup. cbn [toString_or]. by rewrite !load_save_combo.
Qed.

End ConfigFile.

Section HotkeysMenu.

Import Json Settings CaptureDialog Hotkey.

Variable keycodeToString : Z -> string.
Variable homePath : string.

Lemma keys_unsigned_set (target : Target) (c : HotkeyCombo) (config : Config) :
  keys_unsigned config ->
  Forall (fun k => Int.is_uint k = true) (keys c) ->
  keys_unsigned (set target c config).
Proof.
  unfold keys_unsigned. rewrite !Forall_app. intros (H1 & H2 & H3) Hc.
  by destruct target.
Qed.

Lemma keys_unsigned_get (target : Target) (config : Config) :
  keys_unsigned config ->
  Forall (fun k => Int.is_uint k = true) (keys (get target config)).
Proof.
  unfold keys_unsigned. rewrite !Forall_app. intros (H1 & H2 & H3).
  by destruct target.
Qed.

Lemma exec_not_saved (target : Target) (config : Config)
    (inputs : list Input) :
  forall (d : Dialog) (config' : Config) (r : option Closed),
  exec keycodeToString target config d inputs = (config', r) ->
  r <> Some Accepted -> config' = config.
Proof.
  induction inputs as [|[k| | | |] inputs IH]; intros d config' r Hex Hr;
    cbn [exec] in Hex.
  - by injection Hex as <- _.
  - destruct (worker_running d); [|by eapply IH].
    case_bool_decide; [by eapply IH|].
    destruct (_ <? _)%nat; by eapply IH.
  - by eapply IH.
  - cbv zeta in Hex. by injection Hex as _ <-.
  - by injection Hex as <- _.
  - destruct (timer_active d); by eapply IH.
Qed.

Lemma menu_sync (sel : option MenuAction)
    (inputs : list Input) (config config' : Config)
    (file file' : ConfigFile) :
  keys_unsigned config -> captures_unsigned inputs ->
  in_sync homePath config file ->
  hotkeyMenu keycodeToString sel inputs true config file = (config', file') ->
  keys_unsigned config' /\ in_sync homePath config' file'.
Proof.
  intros Hk Hcap Hsync Hmenu.
  destruct sel as [[target|target]|]; cbn [hotkeyMenu] in Hmenu.
  - destruct (exec _ _ _ _ _) as [c r] eqn:Hex.
    assert (r <> Some Accepted -> (c, file) = (config', file') ->
            keys_unsigned config' /\ in_sync homePath config' file') as Hno.
    { intros Hr [= <- <-].
      by assert (c = config) as -> by by eapply exec_not_saved. }
    destruct r as [[]|]; [|by apply Hno..].
    injection Hmenu as <- <-.
    destruct (exec_saved keycodeToString target config inputs _ _ Hex)
      as (ks & -> & _ & _ & Hin).
    { unfold opened. cbn [seq].
      destruct (Nat.leb_spec 3 (length (keys (get target config))));
        cbn; lia. }
    assert (keys_unsigned
              (set target
                 {| keys := ks;
                    displayName := match ks with
                                   | [] => "None"
                                   | _ => comboToDisplay keycodeToString ks
                                   end |} config)) as Hk'.
    { apply keys_unsigned_set; [done|]. cbn [keys].
      apply Forall_forall. intros k [Hx|Hx]%Hin; [|by apply Hcap].
      unfold opened in Hx. cbn [seq] in Hx.
      destruct (3 <=? _)%nat; [by apply elem_of_nil in Hx|].
      pose proof (keys_unsigned_get target _ Hk) as H.
      by apply (proj1 (Forall_forall _ _) H). }
    split; [done|]. unfold in_sync. cbn [saveConfig].
    by apply load_config_document.
  - cbv zeta in Hmenu. injection Hmenu as <- <-.
    assert (keys_unsigned
              (set target {| keys := []; displayName := "" |} config)) as Hk'.
    { apply keys_unsigned_set; [done | constructor]. }
    split; [done|]. unfold in_sync. cbn [saveConfig].
    by apply load_config_document.
  - by injection Hmenu as <- <-.
Qed.

(** X14: the Hotkeys menu keeps the file in step with the configuration:
    if the file gives the configuration back before the menu is used, it
    does so afterwards, whether a combo was captured, cleared, or the dialog
    cancelled. *)
Theorem menu_keeps_file_in_sync (sel : option MenuAction)
    (inputs : list Input) (config config' : Config)
    (file file' : ConfigFile) :
  keys_unsigned config -> captures_unsigned inputs ->
  in_sync homePath config file ->
  hotkeyMenu keycodeToString sel inputs true config file = (config', file') ->
  keys_unsigned config' /\ in_sync homePath config' file'.
Proof. apply menu_sync. Qed.

(** X15: once a combo is cleared from the Hotkeys menu its slot is never
    invoked, whatever keys are down, and the other two slots are invoked as
    before. *)
Theorem cleared_slot_never_fires (target : Target) (inputs : list Input)
    (writable : bool) (config : Config) (file : ConfigFile)
    (downset : list Z) :
  let config' :=
    fst (hotkeyMenu keycodeToString (Some (ClearCombo target)) inputs
           writable config file) in
  (slot_of target ∉ on_currentDownSetChanged config' downset)
  /\ (forall a, a <> slot_of target ->
        a ∈ on_currentDownSetChanged config' downset
        <-> a ∈ on_currentDownSetChanged config downset).
Proof.
  cbn [hotkeyMenu fst]. split.
  - rewrite invoked_iff, triggers_iff. intros [Hne _]. apply Hne.
    by destruct target.
  - intros a Ha. rewrite !invoked_iff.
    by destruct target, a.
Qed.

End HotkeysMenu.

Section WindowRuns.

Import Json Settings Window.

Variable keycodeToString : Z -> string.
Variable homePath : string.

Lemma to_uint_is_uint (z : Z) : Int.is_uint (Int.to_uint z) = true.
Proof.
  unfold Int.is_uint, Int.to_uint.
  pose proof (Z.mod_pos_bound z (2 ^ 32)) as H.
  apply andb_true_iff. split; [apply Z.leb_le | apply Z.ltb_lt]; lia.
Qed.

Lemma loadCombo_unsigned (o : gmap string QJsonValue) :
  Forall (fun k => Int.is_uint k = true) (keys (loadCombo o)).
Proof.
  unfold loadCombo. cbn [keys]. apply Forall_forall.
  intros k (v & -> & _)%list_elem_of_fmap. apply to_uint_is_uint.
Qed.

Lemma loadConfig_unsigned (file : ConfigFile) :
  keys_unsigned (loadConfig homePath file Config_default).
Proof.
  destruct file as [| |[|a|root]]; try by repeat constructor.
  unfold keys_unsigned. cbn [loadConfig startRecording startPlayback
    stopPlayback]. rewrite !Forall_app. auto using loadCombo_unsigned.
Qed.

Lemma with_lastDir_sync (dir : string) (c : Config) (file : ConfigFile) :
  keys_unsigned c ->
  keys_unsigned (with_lastDir dir c)
  /\ in_sync homePath (with_lastDir dir c)
       (saveConfig true (with_lastDir dir c) file).
Proof.
  intros Hk. assert (keys_unsigned (with_lastDir dir c)) as Hk' by done.
  split; [done|]. by apply load_config_document.
Qed.

Lemma step_inv (st : State) (i : Input) :
  (forall sel dlg, i = clickHotkeys sel dlg -> captures_unsigned dlg) ->
  window_inv homePath st ->
  window_inv homePath (step keycodeToString true st i).1.
Proof.
  intros Hdlg Hinv. pose proof Hinv as (Hk & Hs & Hb).
  destruct i as [|r| |path dir writable|path dir file|sel dlg|slot r|s|sum evs|s];
    cbn [step].
  - destruct (saveDialog st); [exact Hinv|].
    destruct (btnRecord_enabled st); [|exact Hinv].
    unfold onToggleRecord. destruct (activeRecorder st); done.
  - destruct (saveDialog st); [exact Hinv|].
    destruct (btnPlay_enabled st); [|exact Hinv].
    unfold onTogglePlay. destruct (activePlayer st); [done|].
    case_bool_decide; done.
  - destruct (saveDialog st); [exact Hinv|].
    destruct (btnSave_enabled st) eqn:Hen; [|exact Hinv].
    unfold on_btnSave_opens. case_bool_decide; exact Hinv.
  - destruct (saveDialog st); [|exact Hinv].
    unfold on_btnSave_answered. cbv zeta.
    case_bool_decide; [exact Hinv|].
    unfold Recq.saveRecq. destruct writable; [|exact Hinv].
    destruct (with_lastDir_sync dir (config st) (configFile st) Hk).
    done.
  - destruct (saveDialog st); [exact Hinv|].
    unfold on_btnLoad. case_bool_decide; [done|]. cbn [fst].
    unfold window_inv.
    cbn [config configFile btnSave_enabled recorded].
    case_bool_decide as Hev; [done|].
    destruct (with_lastDir_sync dir (config st) (configFile st) Hk).
    done.
  - destruct (saveDialog st); [exact Hinv|].
    unfold on_btnHotkey.
    destruct (hotkeyMenu _ _ _ _ _ _) as [c f] eqn:Hmenu. cbn [fst].
    destruct (menu_sync keycodeToString homePath sel dlg (config st) c
                (configFile st) f Hk (Hdlg _ _ eq_refl) Hs Hmenu).
    done.
  - destruct slot.
    + unfold onToggleRecord. destruct (activeRecorder st); done.
    + unfold onTogglePlay. destruct (activePlayer st); [done|].
      case_bool_decide; done.
    + unfold onStopPlaybackHotkey. destruct (activePlayer st); done.
  - done.
  - cbn [fst]. unfold window_inv, on_finishedRecording.
    cbn [config configFile btnSave_enabled recorded].
    split; [done|]. split; [done|]. by case_bool_decide.
  - cbn [fst]. unfold on_player_status. destruct (_ || _); done.
Qed.

Lemma run_inv (inputs : list Input) :
  forall st : State,
  dialogs_unsigned inputs ->
  window_inv homePath st ->
  window_inv homePath (run keycodeToString true st inputs).1.
Proof.
  induction inputs as [|i inputs IH]; intros st Hd Hinv; [done|].
  cbn [run].
  pose proof (step_inv st i) as Hstep.
  destruct (step keycodeToString true st i) as [st1 cmds1].
  specialize (IH st1).
  destruct (run keycodeToString true st1 inputs) as [st2 cmds2].
  cbn [fst] in *. apply IH.
  - intros sel dlg Hin. apply (Hd sel dlg). by apply list_elem_of_further.
  - apply Hstep; [|done]. intros sel dlg ->. apply (Hd sel dlg).
    apply list_elem_of_here.
Qed.

Lemma constructed_inv (file : ConfigFile) :
  window_inv homePath (constructed homePath file).
Proof.
  split; [apply loadConfig_unsigned|]. split; [done|]. done.
Qed.

(** X16: whatever the window has handled, starting the program again
    restores the configuration it ended with: [loadConfig] on the file as
    it stands gives the configuration in memory.  (The file is one that
    can be written, and the capture worker reports keycodes that are
    [unsigned int]s.) *)
Theorem restart_restores_config (file : ConfigFile) (inputs : list Input) :
  dialogs_unsigned inputs ->
  let st := (run keycodeToString true (constructed homePath file) inputs).1 in
  loadConfig homePath (configFile st) Config_default = config st.
Proof.
  intros Hd st.
  by destruct (run_inv inputs (constructed homePath file) Hd
                 (constructed_inv file)) as (_ & ? & _).
Qed.

Variable config_writable : bool.





Lemma step_player_kept (st : State) (i : Input) (job : Job) :
  activePlayer st = Some job ->
  (forall s, i = player_status s ->
     contains_CaseInsensitive s "finished" = false
     /\ contains_CaseInsensitive s "Stopped" = false) ->
  activePlayer (step keycodeToString config_writable st i).1 = Some job
  /\ (forall j, PlayerStart j ∉ (step keycodeToString config_writable st i).2).
Proof.
  intros Hp Hs.
  destruct i as [|r| |path dir writable|path dir file|sel dlg|slot r|s|sum evs|s];
    cbn [step].
  - destruct (saveDialog st); [split; [done | set_solver]|].
    destruct (btnRecord_enabled st); [|split; [done | set_solver]].
    unfold onToggleRecord. destruct (activeRecorder st); cbn [fst snd];
      (split; [done | set_solver]).
  - destruct (saveDialog st); [split; [done | set_solver]|].
    destruct (btnPlay_enabled st); [|split; [done | set_solver]].
    unfold onTogglePlay. rewrite Hp. split; [done | set_solver].
  - destruct (saveDialog st); [split; [done | set_solver]|].
    destruct (btnSave_enabled st); [|split; [done | set_solver]].
    unfold on_btnSave_opens. case_bool_decide; (split; [done | set_solver]).
  - destruct (saveDialog st); [|split; [done | set_solver]].
    unfold on_btnSave_answered. cbv zeta.
    case_bool_decide; [split; [done | set_solver]|].
    destruct (Recq.saveRecq _ _) as [[] [doc|]]; cbn [fst snd];
      (split; [done | set_solver]).
  - destruct (saveDialog st); [split; [done | set_solver]|].
    unfold on_btnLoad. case_bool_decide; cbn [fst snd];
      (split; [done | set_solver]).
  - destruct (saveDialog st); [split; [done | set_solver]|].
    unfold on_btnHotkey. destruct (hotkeyMenu _ _ _ _ _ _) as [c f].
    split; [done | set_solver].
  - destruct slot.
    + unfold onToggleRecord. destruct (activeRecorder st); cbn [fst snd];
        (split; [done | set_solver]).
    + unfold onTogglePlay. rewrite Hp. split; [done | set_solver].
    + unfold onStopPlaybackHotkey. rewrite Hp. split; [done | set_solver].
  - split; [done | set_solver].
  - split; [done | set_solver].
  - destruct (Hs s eq_refl) as [H1 H2]. cbn [fst snd].
    unfold on_player_status. rewrite H1, H2. split; [done | set_solver].
Qed.

(** X18: a replay in progress is never replaced: until its player reports
    the end, no handler starts another player, and the one started stays
    the active one. *)
Theorem running_player_is_kept (st : State) (inputs : list Input)
    (job : Job) :
  activePlayer st = Some job -> none_finished inputs ->
  let out := run keycodeToString config_writable st inputs in
  activePlayer out.1 = Some job /\ (forall j, PlayerStart j ∉ out.2).
Proof.
  cbv zeta. revert st.
  induction inputs as [|i inputs IH]; intros st Hp Hnone.
  - split; [done | set_solver].
  - cbn [run].
    destruct (step_player_kept st i job Hp) as [Hp1 Hc1].
    { intros s ->. apply Hnone. apply list_elem_of_here. }
    destruct (step keycodeToString config_writable st i) as [st1 cmds1].
    destruct (IH st1 Hp1) as [Hp2 Hc2].
    { intros s Hin. apply Hnone. by apply list_elem_of_further. }
    destruct (run keycodeToString config_writable st1 inputs) as [st2 cmds2].
    cbn [fst snd] in *. split; [done|].
    intros j [Hin|Hin]%elem_of_app; [by eapply Hc1 | by eapply Hc2].
Qed.

Lemma step_recorder_kept (st : State) (i : Input) :
  activeRecorder st = true ->
  (forall summary events, i <> recorder_finishedRecording summary events) ->
  activeRecorder (step keycodeToString config_writable st i).1 = true
  /\ RecorderStart ∉ (step keycodeToString config_writable st i).2.
Proof.
  intros Hr Hs.
  destruct i as [|r| |path dir writable|path dir file|sel dlg|slot r|s|sum evs|s];
    cbn [step].
  - destruct (saveDialog st); [split; [done | set_solver]|].
    destruct (btnRecord_enabled st); [|split; [done | set_solver]].
    unfold onToggleRecord. rewrite Hr. split; [done | set_solver].
  - destruct (saveDialog st); [split; [done | set_solver]|].
    destruct (btnPlay_enabled st); [|split; [done | set_solver]].
    unfold onTogglePlay.
    destruct (activePlayer st); [split; [done | set_solver]|].
    case_bool_decide; (split; [done | set_solver]).
  - destruct (saveDialog st); [split; [done | set_solver]|].
    destruct (btnSave_enabled st); [|split; [done | set_solver]].
    unfold on_btnSave_opens. case_bool_decide; (split; [done | set_solver]).
  - destruct (saveDialog st); [|split; [done | set_solver]].
    unfold on_btnSave_answered. cbv zeta.
    case_bool_decide; [split; [done | set_solver]|].
    destruct (Recq.saveRecq _ _) as [[] [doc|]]; cbn [fst snd];
      (split; [done | set_solver]).
  - destruct (saveDialog st); [split; [done | set_solver]|].
    unfold on_btnLoad. case_bool_decide; cbn [fst snd];
      (split; [done | set_solver]).
  - destruct (saveDialog st); [split; [done | set_solver]|].
    unfold on_btnHotkey. destruct (hotkeyMenu _ _ _ _ _ _) as [c f].
    split; [done | set_solver].
  - destruct slot.
    + unfold onToggleRecord. rewrite Hr. split; [done | set_solver].
    + unfold onTogglePlay.
      destruct (activePlayer st); [split; [done | set_solver]|].
      case_bool_decide; (split; [done | set_solver]).
    + unfold onStopPlaybackHotkey.
      destruct (activePlayer st); (split; [done | set_solver]).
  - split; [done | set_solver].
  - by destruct (Hs sum evs).
  - cbn [fst snd]. unfold on_player_status.
    destruct (_ || _); (split; [done | set_solver]).
Qed.

(** X19: a capture in progress is never replaced: until its recorder
    reports the end, no handler starts another recorder. *)
Theorem running_recorder_is_kept (st : State) (inputs : list Input) :
  activeRecorder st = true ->
  (forall summary events,
     recorder_finishedRecording summary events ∉ inputs) ->
  let out := run keycodeToString config_writable st inputs in
  activeRecorder out.1 = true /\ RecorderStart ∉ out.2.
Proof.
  cbv zeta. revert st.
  induction inputs as [|i inputs IH]; intros st Hr Hnone.
  - split; [done | set_solver].
  - cbn [run].
    destruct (step_recorder_kept st i Hr) as [Hr1 Hc1].
    { intros summary events ->. apply (Hnone summary events).
      apply list_elem_of_here. }
    destruct (step keycodeToString config_writable st i) as [st1 cmds1].
    destruct (IH st1 Hr1) as [Hr2 Hc2].
    { intros summary events Hin. apply (Hnone summary events).
      by apply list_elem_of_further. }
    destruct (run keycodeToString config_writable st1 inputs) as [st2 cmds2].
    cbn [fst snd] in *. split; [done|].
    intros [Hin|Hin]%elem_of_app; [by apply Hc1 | by apply Hc2].
Qed.

Lemma run_app (st : State) (l1 l2 : list Input) :
  run keycodeToString config_writable st (l1 ++ l2)
  = let '(st1, c1) := run keycodeToString config_writable st l1 in
    let '(st2, c2) := run keycodeToString config_writable st1 l2 in
    (st2, c1 ++ c2).
Proof.
  revert st. induction l1 as [|i l1 IH]; intros st; cbn [app run].
  - by destruct (run _ _ st l2).
  - destruct (step _ _ st i) as [st1 c1]. rewrite IH.
    destruct (run _ _ st1 l1) as [st2 c2].
    destruct (run _ _ st2 l2) as [st3 c3]. by rewrite app_assoc.
Qed.

(** X20: with a log in the window and no replay in progress, holding
    exactly the keys of the playback combo starts a player on that log, at
    the speed and with the loop count the controls show. *)
Theorem playback_combo_starts_player (st : State) (downset : list Z)
    (r : Readings) :
  activePlayer st = None -> recorded st <> [] ->
  keys (startPlayback (config st)) <> [] ->
  downset ≡ₚ keys (startPlayback (config st)) ->
  let job := {| job_events := recorded st; job_speed := spinSpeed r;
                job_loops := Player.loops_setting (chkInfinite r)
                               (spinLoops r) |} in
  let out := run keycodeToString config_writable st
               (invocations (config st) downset r) in
  PlayerStart job ∈ out.2 /\ activePlayer out.1 = Some job.
Proof.
  intros Hp Hrec Hkeys Hperm job out. subst out.
  assert (Hotkey.triggers (startPlayback (config st)) (sort_keys downset)
          = true) as Ht.
  { apply triggers_iff. split; [done|]. by apply sort_keys_eq_iff. }
  unfold invocations, Hotkey.on_currentDownSetChanged. rewrite Ht.
  assert (forall st0, activePlayer st0 = None -> recorded st0 = recorded st ->
            let out := run keycodeToString config_writable st0
                         (map (fun slot => invoke slot r)
                            ([Hotkey.onTogglePlay]
                             ++ (if Hotkey.triggers (stopPlayback (config st))
                                      (sort_keys downset)
                                 then [Hotkey.onStopPlaybackHotkey] else [])))
            in PlayerStart job ∈ out.2 /\ activePlayer out.1 = Some job)
    as Hplay.
  { intros st0 Hp0 Hr0. cbn [app map run step]. unfold onTogglePlay.
    rewrite Hp0, Hr0. rewrite bool_decide_eq_false_2 by done. fold job.
    destruct (Hotkey.triggers (stopPlayback (config st)) _);
      cbn [map run step onStopPlaybackHotkey activePlayer fst snd app];
      split; (done || apply list_elem_of_here). }
  destruct (Hotkey.triggers (startRecording (config st)) _);
    [|by apply Hplay].
  rewrite map_app.
  change (map _ [Hotkey.onToggleRecord]) with [invoke Hotkey.onToggleRecord r].
  rewrite run_app. cbn [run step].
  assert (activePlayer (onToggleRecord st).1 = None
          /\ recorded (onToggleRecord st).1 = recorded st) as [Hp1 Hr1].
  { unfold onToggleRecord. by destruct (activeRecorder st). }
  destruct (onToggleRecord st) as [st1 c1]. cbn [fst] in Hp1, Hr1.
  destruct (Hplay st1 Hp1 Hr1) as [H1 H2].
  destruct (run _ _ st1 _) as [st2 c2]. cbn [fst snd] in *.
  split; [|done]. apply elem_of_app. by right.
Qed.

End WindowRuns.

Section KeyLabels.

Import KeyNames.

(** No entry of the table but [k +:+ "_L"] itself, for the five bases that
    have one, is the name [b +:+ "_L"]; the same on the right. *)
Lemma find_sided (b : string) :
  find (b +:+ "_L") friendlyMap = find (b +:+ "_R") friendlyMap.
Proof.
  assert (forall k side, Window.endsWith k side = false ->
            bool_decide (k = b +:+ side) = false) as Hno.
  { intros k side He. apply bool_decide_eq_false. intros ->.
    by rewrite endsWith_append in He. }
  assert (forall k side, bool_decide (k +:+ side = b +:+ side)
                         = bool_decide (k = b)) as Hyes.
  { intros k side. apply bool_decide_ext. split; [apply append_cancel|].
    by intros ->. }
  unfold friendlyMap. cbn [find].
  change "Shift_L" with ("Shift" +:+ "_L").
  change "Shift_R" with ("Shift" +:+ "_R").
  change "Control_L" with ("Control" +:+ "_L").
  change "Control_R" with ("Control" +:+ "_R").
  change "Alt_L" with ("Alt" +:+ "_L").
  change "Alt_R" with ("Alt" +:+ "_R").
  change "Super_L" with ("Super" +:+ "_L").
  change "Super_R" with ("Super" +:+ "_R").
  change "Meta_L" with ("Meta" +:+ "_L").
  change "Meta_R" with ("Meta" +:+ "_R").
  rewrite !Hyes.
  rewrite !Hno by (vm_compute; reflexivity).
  repeat case_bool_decide; done.
Qed.

(** X21: two keysym names that differ only in a closing [_L] or [_R] get
    the same label. *)
Theorem left_and_right_share_label (b : string) :
  friendlyKeyName (Some (b +:+ "_L")) = friendlyKeyName (Some (b +:+ "_R")).
Proof.
  unfold friendlyKeyName. rewrite find_sided.
  destruct (find (b +:+ "_R") friendlyMap); [done|].
  rewrite !endsWith_append, orb_true_r. cbn [orb].
  by rewrite (left_append b "_L" 2), (left_append b "_R" 2).
Qed.

Lemma fallback_filled (keycode : Z) : fallback keycode <> "".
Proof. done. Qed.

Lemma label_is_never_empty (x : Xkb) (has_dpy : bool) (keycode : Z) :
  keycodeToString x has_dpy keycode <> "".
Proof.
  unfold keycodeToString. destruct (_ && _); [done|].
  destruct (match XkbGetState x with Some _ => _ | None => _ end) as [g l].
  by case_bool_decide.
Qed.

Lemma append_filled (a b : string) : a <> "" -> a +:+ b <> "".
Proof. by destruct a. Qed.

Lemma join_filled (sep p : string) (rest : list string) :
  p <> "" -> CaptureDialog.join sep (p :: rest) <> "".
Proof.
  cbn [CaptureDialog.join]. revert p.
  induction rest as [|q rest IH]; intros p Hp; [done|].
  cbn [fold_left]. apply IH. by apply append_filled.
Qed.

(** X22: a combo saved from the capture dialog never has an empty display
    name: it is "None" or the labels of its keys, and a label is never
    empty. *)
Theorem saved_combo_has_a_name (x : Xkb) (target : CaptureDialog.Target)
    (config config' : Config) (inputs : list CaptureDialog.Input) :
  CaptureDialog.exec (keycodeToString x (display_opens x)) target config
    (CaptureDialog.opened target config) inputs
  = (config', Some CaptureDialog.Accepted) ->
  displayName (CaptureDialog.get target config') <> "".
Proof.
  intros Hex.
  destruct (exec_saved _ target config inputs _ _ Hex)
    as (ks & -> & _ & _ & _).
  { unfold CaptureDialog.opened. cbn [CaptureDialog.seq].
    destruct (Nat.leb_spec 3
                (length (keys (CaptureDialog.get target config))));
      cbn; lia. }
  rewrite get_set. cbn [displayName].
  destruct ks as [|k ks]; [done|].
  cbn [CaptureDialog.comboToDisplay map]. apply join_filled.
  apply label_is_never_empty.
Qed.

End KeyLabels.

Section LoadedMacro.

Import Json Recq.

Lemma load_record_monitor (v : QJsonValue) : ev_monitor (load_record v) = "".
Proof. unfold load_record. by repeat case_bool_decide. Qed.

(** X23: a macro that was loaded from a file holds no monitor names, so
    its replay does not look at the layout: a loaded move is sent as a
    pointer motion to its recorded [x], [y]; a loaded button event is
    injected with no pointer motion before it. *)
Theorem loaded_macro_replays_absolute (file : option QJsonDocument)
    (e : Event) (dpy : Layout) (events : list Event) (i : nat) :
  e ∈ loadRecq file ->
  ev_monitor e = ""
  /\ match ev_type e with
     | MouseMove =>
         Taps.calls_of (Player.dispatch dpy events i e)
         = [Player.XTestFakeMotionEvent (ev_x e) (ev_y e); Player.XFlush]
     | MouseButton =>
         Taps.motions (Player.dispatch dpy events i e) = []
         /\ head (Taps.calls_of (Player.dispatch dpy events i e))
            = Some (Player.XTestFakeButtonEvent (ev_button e) (ev_pressed e))
     | Key => Taps.motions (Player.dispatch dpy events i e) = []
     end.
Proof.
  intros Hin.
  assert (ev_monitor e = "") as Hname.
  { destruct file as [[|a|root]|]; cbn [loadRecq load_document] in Hin;
      try by apply elem_of_nil in Hin.
    - apply list_elem_of_fmap in Hin as (v & -> & _). apply load_record_monitor.
    - apply list_elem_of_fmap in Hin as (v & -> & _). apply load_record_monitor. }
  split; [done|]. apply dispatch_unresolved.
  apply resolve_fallback. by left.
Qed.

End LoadedMacro.

(** ** The further properties at sample inputs *)

Lemma recorded_offset_inside_monitor_witness :
  let o := Examples.pointer_at 1040 2000 300 in
  let e := Recorder.mouse_event MouseButton 40 o 1 true in
  exists j out' c',
    (j <= 1)%nat
    /\ Layouts.outputs Sample.layout_two !! j = Some (out', c')
    /\ Monitor.contains_point 2000 300 out' c' = true
    /\ (forall j' oc, (j' < j)%nat ->
          Layouts.outputs Sample.layout_two !! j' = Some oc ->
          Monitor.contains_point 2000 300 oc.1 oc.2 = false)
    /\ ev_monitor e = out_name out'
    /\ (0 <= ev_relx e < Int.to_int (crtc_width c'))%Z
    /\ (0 <= ev_rely e < Int.to_int (crtc_height c'))%Z
    /\ ev_x e = (crtc_x c' + ev_relx e)%Z
    /\ ev_y e = (crtc_y c' + ev_rely e)%Z.
Proof.
  intros o e.
  apply (recorded_offset_inside_monitor MouseButton 40 o 1 true 1
           {| out_name := "HDMI-1"; out_connected := true;
              out_crtc := Some {| crtc_x := 1920; crtc_y := 0;
                                  crtc_width := 2560;
                                  crtc_height := 1440 |} |}
           {| crtc_x := 1920; crtc_y := 0; crtc_width := 2560;
              crtc_height := 1440 |});
    [reflexivity | reflexivity | repeat constructor].
Defined.

Lemma unmatched_pointer_replays_absolute_witness :
  let e := Recorder.mouse_event MouseMove 40
             (Examples.pointer_at 1040 5000 300) 0 false in
  ev_monitor e = ""
  /\ Taps.calls_of (Player.dispatch Sample.layout_two [e] 0 e)
     = [Player.XTestFakeMotionEvent 5000 300; Player.XFlush].
Proof.
  intros e.
  assert (Forall
            (fun oc => Monitor.contains_point 5000 300 oc.1 oc.2 = false)
            (Layouts.outputs Sample.layout_two)) as Hout
    by repeat constructor.
  pose proof (unmatched_pointer_replays_absolute MouseMove 40
                (Examples.pointer_at 1040 5000 300) 0 false Hout)
    as (Hname & _ & _ & Hat).
  split; [exact Hname | exact (Hat Sample.layout_two [e] 0%nat)].
Defined.

Lemma same_layout_replays_recorded_position_witness :
  (Player.resolve Sample.layout_two
     (Recorder.mouse_event MouseButton 40
        (Examples.pointer_at 1040 2000 300) 1 true)).1
  = (2000%Z, 300%Z).
Proof.
  apply (same_layout_replays_recorded_position MouseButton 40
           (Examples.pointer_at 1040 2000 300) 1 true);
    [|reflexivity|reflexivity].
  unfold Layouts.distinct_names. apply (bool_decide_unpack _). vm_compute. exact I.
Defined.

Lemma timestamps_never_decrease_witness :
  let raw := [Sample.button_press 1010 1; Examples.key_notice 1040 38;
              Sample.button_release 1090 1] in
  Sorted Z.le
    (ev_ms_since_start
       <$> (Recorder.run Recorder.BackendReady elements 1000 raw
              (Sample.observed 1500)).2).
Proof.
  intros raw.
  apply (timestamps_never_decrease elements 1000 raw (Sample.observed 1500)).
  split; [|reflexivity]. repeat constructor; cbn; lia.
Defined.

Lemma every_press_is_released_witness :
  Taps.settled
    (Taps.all_calls
       (Player.run true Sample.env_quiet (Double.of_Z 1) 2 [Sample.click]
          5000 [])).
Proof.
  apply (every_press_is_released true Sample.env_quiet (Double.of_Z 1) 2
           [Sample.click] 5000 []).
  reflexivity.
Defined.

Lemma nothing_fires_without_keys_witness :
  keys (Hotkey.bound_to (Sample.config_recording [38; 37]%Z)
          Hotkey.onToggleRecord) <> []
  /\ [37; 38]%Z <> [].
Proof.
  apply (nothing_fires_without_keys (Sample.config_recording [38; 37]%Z)
           Hotkey.onToggleRecord [37; 38]%Z).
  vm_compute. apply list_elem_of_here.
Defined.

Lemma saved_combo_is_short_witness :
  let inputs := [CaptureDialog.capturedKey 38; CaptureDialog.capturedKey 38;
                 CaptureDialog.capturedKey 50; CaptureDialog.clickSave] in
  let config := Sample.config_recording [37]%Z in
  let config' :=
    CaptureDialog.openCaptureDialog (fun _ => "?")
      CaptureDialog.ForStartRecording config inputs in
  (length (keys (startRecording config')) <= 3)%nat.
Proof.
  intros inputs config config'.
  apply (saved_combo_is_short (fun _ => "?") CaptureDialog.ForStartRecording
           config config' inputs).
  vm_compute. reflexivity.
Defined.

Lemma only_save_changes_config_witness :
  CaptureDialog.openCaptureDialog (fun _ => "?")
    CaptureDialog.ForStartPlayback Sample.config_full_playback
    [CaptureDialog.capturedKey 38; CaptureDialog.clickReset;
     CaptureDialog.clickCancel]
  = Sample.config_full_playback.
Proof.
  apply (only_save_changes_config (fun _ => "?")
           CaptureDialog.ForStartPlayback Sample.config_full_playback).
  set_solver.
Defined.

Lemma config_round_trip_witness :
  Settings.loadConfig "/home/user"
    (Settings.saveConfig true Sample.config_full_playback Settings.Missing)
    Settings.Config_default
  = Sample.config_full_playback.
Proof.
  apply (config_round_trip "/home/user" Sample.config_full_playback
           Settings.Config_default Settings.Missing).
  repeat constructor.
Defined.

Lemma menu_keeps_file_in_sync_witness :
  let config := Settings.loadConfig "/home/user" Settings.Missing
                  Settings.Config_default in
  let out :=
    Settings.hotkeyMenu (fun _ => "?")
      (Some (Settings.SetCombo CaptureDialog.ForStartPlayback))
      [CaptureDialog.capturedKey 37; CaptureDialog.capturedKey 38;
       CaptureDialog.clickSave]
      true config Settings.Missing in
  Settings.in_sync "/home/user" out.1 out.2.
Proof.
  intros config out.
  apply (menu_keeps_file_in_sync (fun _ => "?") "/home/user"
           (Some (Settings.SetCombo CaptureDialog.ForStartPlayback))
           [CaptureDialog.capturedKey 37; CaptureDialog.capturedKey 38;
            CaptureDialog.clickSave]
           config out.1 Settings.Missing out.2).
  - repeat constructor.
  - intros k Hk. assert (k = 37 \/ k = 38)%Z as [-> | ->] by set_solver;
      reflexivity.
  - reflexivity.
  - reflexivity.
Defined.

Lemma restart_restores_config_witness :
  let inputs :=
    [Window.clickHotkeys
       (Some (Settings.SetCombo CaptureDialog.ForStartRecording))
       [CaptureDialog.capturedKey 38; CaptureDialog.clickSave]] in
  let st := (Window.run (fun _ => "?") true
               (Window.constructed "/home/user" Settings.Unreadable)
               inputs).1 in
  Settings.loadConfig "/home/user" (Window.configFile st)
    Settings.Config_default
  = Window.config st.
Proof.
  intros inputs.
  apply (restart_restores_config (fun _ => "?") "/home/user"
           Settings.Unreadable inputs).
  intros sel dlg Hin k Hk.
  apply list_elem_of_singleton in Hin. injection Hin as -> ->.
  assert (k = 38)%Z as -> by set_solver. reflexivity.
Defined.


Lemma running_player_is_kept_witness :
  let st := (Window.onTogglePlay Examples.readings
               Examples.window_with_log).1 in
  let inputs := [Window.clickPlay Examples.readings;
                 Window.invoke Hotkey.onTogglePlay Examples.readings;
                 Window.player_status "Playing (1 loops, speed x1)..."] in
  Window.activePlayer (Window.run (fun _ => "?") true st inputs).1
  = Some {| Window.job_events := [Sample.key_press 0 38];
            Window.job_speed := Double.of_Z 1;
            Window.job_loops := 1 |}.
Proof.
  intros st inputs.
  apply (running_player_is_kept (fun _ => "?") true st inputs
           {| Window.job_events := [Sample.key_press 0 38];
              Window.job_speed := Double.of_Z 1;
              Window.job_loops := 1 |}).
  - reflexivity.
  - intros s Hs.
    assert (s = "Playing (1 loops, speed x1)...") as -> by set_solver.
    split; reflexivity.
Defined.

Lemma running_recorder_is_kept_witness :
  let inputs := [Window.clickRecord;
                 Window.invoke Hotkey.onToggleRecord Examples.readings;
                 Window.recorder_status "Stopped."] in
  Window.RecorderStart
    ∉ (Window.run (fun _ => "?") true Examples.window_recording inputs).2.
Proof.
  intros inputs.
  apply (running_recorder_is_kept (fun _ => "?") true
           Examples.window_recording inputs).
  - reflexivity.
  - intros summary events. set_solver.
Defined.

Lemma playback_combo_starts_player_witness :
  let out := Window.run (fun _ => "?") true Examples.window_with_log
               (Window.invocations Sample.config_full_playback
                  [37; 38; 50]%Z Examples.readings) in
  Window.PlayerStart
    {| Window.job_events := [Sample.key_press 0 38];
       Window.job_speed := Double.of_Z 1; Window.job_loops := 1 |} ∈ out.2.
Proof.
  intros out.
  apply (playback_combo_starts_player (fun _ => "?") true
           Examples.window_with_log [37; 38; 50]%Z Examples.readings).
  - reflexivity.
  - discriminate.
  - discriminate.
  - apply perm_skip, perm_swap.
Defined.

Lemma saved_combo_has_a_name_witness :
  let config' :=
    CaptureDialog.openCaptureDialog
      (KeyNames.keycodeToString Examples.xkb true)
      CaptureDialog.ForStartRecording (Sample.config_recording [])
      [CaptureDialog.capturedKey 50; CaptureDialog.clickSave] in
  displayName (startRecording config') <> "".
Proof.
  intros config'.
  apply (saved_combo_has_a_name Examples.xkb CaptureDialog.ForStartRecording
           (Sample.config_recording []) config'
           [CaptureDialog.capturedKey 50; CaptureDialog.clickSave]).
  vm_compute. reflexivity.
Defined.

Lemma loaded_macro_replays_absolute_witness :
  let file := snd (Recq.saveRecq true [Sample.click]) in
  let e := {| ev_type := MouseButton; ev_ms_since_start := 40;
              ev_x := 3010; ev_y := 20; ev_button := 1; ev_pressed := true;
              ev_keycode := 0; ev_monitor := ""; ev_relx := 0;
              ev_rely := 0 |} in
  Taps.motions (Player.dispatch Sample.layout_two [e] 0 e) = []
  /\ head (Taps.calls_of (Player.dispatch Sample.layout_two [e] 0 e))
     = Some (Player.XTestFakeButtonEvent 1 true).
Proof.
  intros file e.
  assert (e ∈ Recq.loadRecq file) as Hin.
  { assert (Recq.loadRecq file = [e]) as -> by (vm_compute; reflexivity).
    apply list_elem_of_here. }
  exact (proj2 (loaded_macro_replays_absolute file e Sample.layout_two [e]
                  0%nat Hin)).
Defined.
